(** * Comtrac tuner: the numeric core of [src/App.jsx]

    A shallow embedding of the well-engineering engine of the application:
    [interpolate], [calculateTrajectory], [calculateIDFromODWeight],
    [parseSurveyData], the pressure profile of [StepFluids] and the run
    stitcher of [SimulationBuilder] ([handleStitch] and the auto-display
    effect).

    JavaScript numbers are IEEE 754 binary64 values: they are embedded as
    Rocq's primitive [float], whose operations are the processor's and whose
    specification is [FloatAxioms].  [null] is [None].  [calculateTrajectory],
    whose results depend on [Math.cos], [Math.sin], [Math.tan] and
    [Math.acos], is embedded over the real numbers (module [Trajectory]).

    Around these, the file embeds [parseSimulationCSV], the merge of the
    first [SimulationBuilder], [fmt] with [Number.prototype.toFixed], the
    interface calculator of [StepFluids], the save of [StepTemperature], the
    reordering of tools in [StepBHA] and the trajectory items of
    [exportToComtrac], and proves how they behave together with the functions
    above. *)

From Stdlib Require Import ZArith List Bool Lia Floats.
From Stdlib Require Import Sorting.Sorted Sorting.Permutation.
Import ListNotations.

Set Warnings "-inexact-float".

(** ** JavaScript numbers *)

Module Js.

Local Open Scope float_scope.

(** [isNaN x] for a number [x]: NaN is the only value unequal to itself. *)
Definition isNaN (x : float) : bool := negb (x =? x).

(** ToBoolean on a number: [0], [-0] and [NaN] are falsy. *)
Definition truthy (x : float) : bool := negb (isNaN x || (x =? 0)).

(** [a || b] on numbers. *)
Definition orElse (a b : float) : float := if truthy a then a else b.

Definition Math_abs (x : float) : float := abs x.

(** [Math.sqrt]: the correctly rounded square root. *)
Definition Math_sqrt (x : float) : float := sqrt x.

(** [Math.max(...l)]: starts from [-Infinity]; a NaN argument makes the result
    NaN; [+0] is larger than [-0]. *)
Fixpoint Math_max_from (highest : float) (l : list float) : float :=
  match l with
  | [] => highest
  | n :: l' =>
      if isNaN n then nan
      else if (n =? 0) && (highest =? 0) && negb (get_sign n) then Math_max_from n l'
      else if highest <? n then Math_max_from n l'
      else Math_max_from highest l'
  end.

Definition Math_max (l : list float) : float := Math_max_from neg_infinity l.

(** SameValueZero, the equality of [Set]: NaN equals NaN, [+0] equals [-0]. *)
Definition sameValueZero (a b : float) : bool := (a =? b) || (isNaN a && isNaN b).

(** [[...new Set(l)]]: the first occurrence of each value, in insertion order. *)
Fixpoint Set_of (seen l : list float) : list float :=
  match l with
  | [] => []
  | x :: l' =>
      if existsb (sameValueZero x) seen then Set_of seen l'
      else x :: Set_of (x :: seen) l'
  end.

Definition dedup (l : list float) : list float := Set_of [] l.

(** [Array.prototype.sort(comparefn)]: the sort is stable and orders [x] after
    [y] when [comparefn(x, y) > 0]; a NaN result counts as [0].  An insertion
    sort realises it. *)
Section Sort.
Context {A : Type}.
Variable comparefn : A -> A -> float.

Fixpoint sort_insert (x : A) (l : list A) : list A :=
  match l with
  | [] => [x]
  | y :: l' => if 0 <? comparefn x y then y :: sort_insert x l' else x :: l
  end.

Definition Array_sort (l : list A) : list A := fold_right sort_insert [] l.
End Sort.

(** [a[i]] read as a number: a read outside the array is [undefined], which
    arithmetic and comparisons treat as NaN. *)
Definition at_ (l : list float) (i : nat) : float := nth i l nan.

End Js.

(** ** The order of binary64, from its specification *)

Module FloatOrder.

Import Js.
Local Open Scope float_scope.

Ltac spec_order :=
  rewrite ?ltb_spec, ?leb_spec, ?eqb_spec in *;
  unfold SFltb, SFleb, SFeqb, SFcompare in *.

Ltac cmp_cases :=
  repeat match goal with
  | |- context [Z.compare ?a ?b] => destruct (Z.compare_spec a b); subst
  | H : context [Z.compare ?a ?b] |- _ => destruct (Z.compare_spec a b); subst
  | |- context [Pos.compare_cont Eq ?a ?b] =>
      change (Pos.compare_cont Eq a b) with (Pos.compare a b);
      destruct (Pos.compare_spec a b); subst
  | H : context [Pos.compare_cont Eq ?a ?b] |- _ =>
      change (Pos.compare_cont Eq a b) with (Pos.compare a b) in H;
      destruct (Pos.compare_spec a b); subst
  end.

Ltac by_spec a b c :=
  spec_order;
  destruct (Prim2SF a) as [[]|[]| |[] ? ?];
  destruct (Prim2SF b) as [[]|[]| |[] ? ?];
  destruct (Prim2SF c) as [[]|[]| |[] ? ?];
  simpl in *; try congruence;
  cmp_cases; simpl in *; try congruence; try lia.

Lemma isNaN_spec (x : float) : isNaN x = true <-> Prim2SF x = S754_nan.
Proof.
  unfold isNaN. rewrite eqb_spec. unfold SFeqb, SFcompare.
  destruct (Prim2SF x) as [[]|[]| |[] m e]; simpl;
    rewrite ?Z.compare_refl; simpl;
    try change (Pos.compare_cont Eq m m) with (Pos.compare m m);
    rewrite ?Pos.compare_refl; simpl; split; congruence.
Qed.

Lemma ltb_trans (a b c : float) :
  (a <? b) = true -> (b <? c) = true -> (a <? c) = true.
Proof. by_spec a b c. Qed.

Lemma ltb_leb_trans (a b c : float) :
  (a <? b) = true -> (b <=? c) = true -> (a <? c) = true.
Proof. by_spec a b c. Qed.

Lemma leb_ltb_trans (a b c : float) :
  (a <=? b) = true -> (b <? c) = true -> (a <? c) = true.
Proof. by_spec a b c. Qed.

Lemma leb_trans (a b c : float) :
  (a <=? b) = true -> (b <=? c) = true -> (a <=? c) = true.
Proof. by_spec a b c. Qed.

Lemma ltb_leb (a b : float) : (a <? b) = true -> (a <=? b) = true.
Proof. by_spec a b a. Qed.

Lemma ltb_not_leb (a b : float) : (a <? b) = true -> (b <=? a) = false.
Proof. by_spec a b a. Qed.

Lemma leb_not_ltb (a b : float) : (a <=? b) = true -> (b <? a) = false.
Proof. by_spec a b a. Qed.

Lemma ltb_irrefl (a : float) : (a <? a) = false.
Proof. by_spec a a a. Qed.

(** Two numbers that are not NaN are comparable. *)
Lemma leb_total (a b : float) :
  isNaN a = false -> isNaN b = false -> (a <=? b) = false -> (b <? a) = true.
Proof.
  unfold isNaN. intros Ha Hb. apply negb_false_iff in Ha, Hb. revert Ha Hb.
  by_spec a b a.
Qed.

Lemma leb_notNaN (a b : float) :
  (a <=? b) = true -> isNaN a = false /\ isNaN b = false.
Proof.
  unfold isNaN. rewrite !negb_false_iff. by_spec a b a; auto.
Qed.

Lemma ltb_notNaN (a b : float) :
  (a <? b) = true -> isNaN a = false /\ isNaN b = false.
Proof. intros H. apply leb_notNaN, ltb_leb, H. Qed.

(** Whatever lies below some number lies below [Infinity]. *)
Lemma ltb_infinity (a b : float) : (a <? b) = true -> (a <? infinity) = true.
Proof.
  spec_order. change (Prim2SF infinity) with (S754_infinity false).
  destruct (Prim2SF a) as [[]|[]| |[] ? ?];
  destruct (Prim2SF b) as [[]|[]| |[] ? ?]; simpl; congruence.
Qed.

End FloatOrder.

(** ** The sign of a difference

    [Array.prototype.sort] is called with the comparator [(a, b) => a - b].
    The rounded difference of two binary64 numbers is positive exactly when
    the first is the larger one; this is read off the specification of
    subtraction ([SFsub], [binary_round]). *)

Module FloatSub.

Local Open Scope Z_scope.

Definition emin64 : Z := -1074.

Lemma fexp_ge_emin e : emin64 <= fexp prec emax e.
Proof. unfold fexp, emin64, SpecFloat.emin, prec, emax. lia. Qed.

Lemma digits2_bounds (m : positive) :
  2 ^ (Zpos (digits2_pos m) - 1) <= Zpos m < 2 ^ Zpos (digits2_pos m).
Proof.
  induction m as [p IH|p IH|]; simpl digits2_pos.
  - rewrite Pos2Z.inj_succ. replace (Z.succ (Zpos (digits2_pos p)) - 1) with (Z.succ (Zpos (digits2_pos p) - 1)) by lia.
    rewrite !Z.pow_succ_r by lia. lia.
  - rewrite Pos2Z.inj_succ. replace (Z.succ (Zpos (digits2_pos p)) - 1) with (Z.succ (Zpos (digits2_pos p) - 1)) by lia.
    rewrite !Z.pow_succ_r by lia. lia.
  - simpl. lia.
Qed.

Lemma iter_pos_nat {A : Type} (f : A -> A) (p : positive) (x : A) :
  iter_pos f p x = Nat.iter (Pos.to_nat p) f x.
Proof.
  revert x. induction p as [p IH|p IH|]; intros x; simpl iter_pos.
  - rewrite !IH. rewrite Pos2Nat.inj_xI. 
    replace (S (2 * Pos.to_nat p))%nat with (Pos.to_nat p + (Pos.to_nat p + 1))%nat by lia.
    rewrite !Nat.iter_add. simpl. reflexivity.
  - rewrite !IH. rewrite Pos2Nat.inj_xO.
    replace (2 * Pos.to_nat p)%nat with (Pos.to_nat p + Pos.to_nat p)%nat by lia.
    rewrite Nat.iter_add. reflexivity.
  - reflexivity.
Qed.

Lemma shr_1_pos (mrs : shr_record) (k : Z) :
  0 <= k -> 2 * k <= shr_m mrs -> k <= shr_m (shr_1 mrs).
Proof.
  destruct mrs as [m r s]. simpl shr_m. intros Hk H.
  destruct m as [|[p|p|]|p]; simpl; lia.
Qed.

Lemma shr_iter_pos (n : nat) (mrs : shr_record) :
  2 ^ Z.of_nat n <= shr_m mrs -> 1 <= shr_m (Nat.iter n shr_1 mrs).
Proof.
  revert mrs. induction n as [|n IH]; intros mrs H.
  - simpl in *. lia.
  - rewrite Nat.iter_succ_r. apply IH. apply shr_1_pos; [apply Z.pow_nonneg; lia|].
    rewrite Nat2Z.inj_succ, Z.pow_succ_r in H by lia. exact H.
Qed.

Lemma shr_m_of_loc m l : shr_m (shr_record_of_loc m l) = m.
Proof. destruct l as [|[]]; reflexivity. Qed.

Lemma shr_fexp_pos (m e : Z) (l : location) :
  0 < m -> emin64 <= e ->
  0 < shr_m (fst (shr_fexp prec emax m e l)) /\ emin64 <= snd (shr_fexp prec emax m e l).
Proof.
  intros Hm He. unfold shr_fexp, shr.
  destruct m as [|p|p]; try lia. simpl Zdigits2.
  pose proof (digits2_bounds p) as Hd.
  destruct (fexp prec emax (Zpos (digits2_pos p) + e) - e) as [|n|n] eqn:En; simpl fst; simpl snd;
    rewrite ?shr_m_of_loc; try (split; lia).
  assert (Hn : Zpos n = Zpos (digits2_pos p) - prec).
  { unfold fexp, SpecFloat.emin, emin64, prec, emax in *. lia. }
  split; [|lia].
  rewrite iter_pos_nat.
  assert (1 <= shr_m (Nat.iter (Pos.to_nat n) shr_1 (shr_record_of_loc (Zpos p) l))); [|lia].
  apply shr_iter_pos. rewrite shr_m_of_loc. rewrite positive_nat_Z, Hn.
  apply Z.le_trans with (2 ^ (Zpos (digits2_pos p) - 1)); [|lia].
  apply Z.pow_le_mono_r; unfold prec; lia.
Qed.

Definition signed (s : bool) (x : spec_float) : Prop :=
  x = S754_infinity s \/ exists m e, x = S754_finite s m e.

Lemma round_nearest_even_ge m l : m <= round_nearest_even m l.
Proof. destruct l as [|[]]; simpl; try lia. destruct (Z.even m); lia. Qed.

Lemma binary_round_aux_signed s (m e : Z) l :
  0 < m -> emin64 <= e -> signed s (binary_round_aux prec emax s m e l).
Proof.
  intros Hm He. unfold binary_round_aux.
  pose proof (shr_fexp_pos m e l Hm He) as [H1 H1'].
  destruct (shr_fexp prec emax m e l) as [mrs' e'] eqn:E1. simpl fst in *; simpl snd in *.
  pose proof (round_nearest_even_ge (shr_m mrs') (loc_of_shr_record mrs')) as Hr.
  pose proof (shr_fexp_pos (round_nearest_even (shr_m mrs') (loc_of_shr_record mrs')) e' loc_Exact ltac:(lia) H1') as [H2 H2'].
  destruct (shr_fexp prec emax (round_nearest_even (shr_m mrs') (loc_of_shr_record mrs')) e' loc_Exact) as [mrs'' e''] eqn:E2.
  simpl fst in *; simpl snd in *.
  destruct (shr_m mrs'') as [|q|q]; try lia.
  destruct (e'' <=? emax - prec); [right; eauto | left; reflexivity].
Qed.

Lemma binary_round_signed s (m : positive) (e : Z) :
  emin64 <= e -> signed s (binary_round prec emax s m e).
Proof.
  intros He. unfold binary_round, shl_align.
  pose proof (fexp_ge_emin (Zpos (digits2_pos m) + e)) as Hf.
  destruct (fexp prec emax (Zpos (digits2_pos m) + e) - e) eqn:E;
    apply binary_round_aux_signed; lia.
Qed.

Lemma valid_finite s m e :
  valid_binary (S754_finite s m e) = true ->
  emin64 <= e /\ Zpos (digits2_pos m) <= prec /\ (emin64 < e -> Zpos (digits2_pos m) = prec).
Proof.
  unfold SpecFloat.valid_binary, bounded, canonical_mantissa. intros H.
  apply andb_true_iff in H. destruct H as [H _]. apply Z.eqb_eq in H.
  unfold fexp, SpecFloat.emin, emin64, prec, emax in *. lia.
Qed.

Lemma shl_align_fst (m : positive) (e e' : Z) :
  e' <= e -> Zpos (fst (shl_align m e e')) = Zpos m * 2 ^ (e - e').
Proof.
  intros H. unfold shl_align. destruct (e' - e) as [|d|d] eqn:E; try lia.
  - replace (e - e') with 0 by lia. simpl. lia.
  - simpl fst. replace (e - e') with (Zpos d) by lia.
    rewrite <- Z.shiftl_mul_pow2 by lia. simpl Z.shiftl.
    apply (Pos.iter_swap_gen _ _ Zpos xO (Z.mul 2)). reflexivity.
Qed.

(** The order of two valid finite numbers is the order of their mantissas
    aligned on the smaller exponent. *)
Lemma SFcompare_aligned sa ma ea sb mb eb :
  valid_binary (S754_finite sa ma ea) = true ->
  valid_binary (S754_finite sb mb eb) = true ->
  let ez := Z.min ea eb in
  SFcompare (S754_finite sb mb eb) (S754_finite sa ma ea) =
  Some (Z.compare (cond_Zopp sb (Zpos (fst (shl_align mb eb ez))))
                  (cond_Zopp sa (Zpos (fst (shl_align ma ea ez))))).
Proof.
  intros Va Vb ez.
  apply valid_finite in Va, Vb. destruct Va as [Ea [Da Na]], Vb as [Eb [Db Nb]].
  pose proof (digits2_bounds ma) as Ba. pose proof (digits2_bounds mb) as Bb.
  rewrite !shl_align_fst by (unfold ez; lia).
  assert (Hpow : forall k, 0 < k -> 2 <= 2 ^ k).
  { intros k Hk. change 2 with (2 ^ 1) at 1. apply Z.pow_le_mono_r; lia. }
  assert (Hprec : forall m : positive, Zpos (digits2_pos m) <= prec -> Zpos m < 2 ^ prec).
  { intros m Hm. pose proof (digits2_bounds m) as [_ B].
    eapply Z.lt_le_trans; [exact B|]. apply Z.pow_le_mono_r; lia. }
  assert (Hnorm : forall m : positive, Zpos (digits2_pos m) = prec -> 2 ^ prec <= 2 * Zpos m).
  { intros m Hm. pose proof (digits2_bounds m) as [B _]. rewrite Hm in B.
    replace prec with (Z.succ (prec - 1)) at 1 by lia. rewrite Z.pow_succ_r by (unfold prec; lia). lia. }
  assert (Hlt : forall (m m' : positive) e e', emin64 <= e' -> e' < e ->
            Zpos (digits2_pos m) = prec -> Zpos (digits2_pos m') <= prec ->
            Zpos m' * 2 ^ (e' - Z.min e e') < Zpos m * 2 ^ (e - Z.min e e')).
  { intros m m' e e' He' Hee Hm Hm'.
    replace (e' - Z.min e e') with 0 by lia. rewrite Z.pow_0_r, Z.mul_1_r.
    pose proof (Hpow (e - Z.min e e') ltac:(lia)).
    pose proof (Hprec m' Hm'). pose proof (Hnorm m Hm). nia. }
  unfold SFcompare. f_equal.
  destruct (Z.compare_spec eb ea) as [Heq|Hl|Hg].
  - subst eb. unfold ez. rewrite Z.min_id, Z.sub_diag, Z.pow_0_r, !Z.mul_1_r.
    change (Pos.compare_cont Eq mb ma) with (Pos.compare mb ma).
    destruct sb, sa; reflexivity.
  - (* eb < ea *)
    pose proof (Hlt ma mb ea eb Eb Hl (Na ltac:(lia)) Db) as H. fold ez in H.
    assert (Hp : 0 < Zpos mb * 2 ^ (eb - ez))
      by (apply Z.mul_pos_pos; [lia | apply Z.pow_pos_nonneg; unfold ez; lia]).
    set (X := Zpos mb * 2 ^ (eb - ez)) in *. set (Y := Zpos ma * 2 ^ (ea - ez)) in *.
    unfold cond_Zopp.
    destruct sb, sa; symmetry;
      first [apply Z.compare_lt_iff; lia | apply Z.compare_gt_iff; lia].
  - pose proof (Hlt mb ma eb ea Ea Hg (Nb ltac:(lia)) Da) as H.
    rewrite Z.min_comm in H. fold ez in H.
    assert (Hp : 0 < Zpos ma * 2 ^ (ea - ez))
      by (apply Z.mul_pos_pos; [lia | apply Z.pow_pos_nonneg; unfold ez; lia]).
    set (X := Zpos mb * 2 ^ (eb - ez)) in *. set (Y := Zpos ma * 2 ^ (ea - ez)) in *.
    unfold cond_Zopp.
    destruct sb, sa; symmetry;
      first [apply Z.compare_lt_iff; lia | apply Z.compare_gt_iff; lia].
Qed.

Local Open Scope float_scope.

(** [a - b > 0] exactly when [a > b]: a difference of binary64 numbers has the
    sign of the exact difference. *)
Lemma sub_pos_iff (a b : float) : (0 <? a - b) = (b <? a).
Proof.
  rewrite !ltb_spec, sub_spec. change (Prim2SF 0) with (S754_zero false).
  pose proof (Prim2SF_valid a) as Va. pose proof (Prim2SF_valid b) as Vb.
  destruct (Prim2SF a) as [sa|sa| |sa ma ea]; destruct (Prim2SF b) as [sb|sb| |sb mb eb];
    try (repeat match goal with s : bool |- _ => destruct s end; reflexivity).
  unfold SFltb. rewrite (SFcompare_aligned sa ma ea sb mb eb Va Vb).
  unfold SF64sub, SFsub.
  set (ez := Z.min ea eb).
  set (va := cond_Zopp sa (Zpos (fst (shl_align ma ea ez)))).
  set (vb := cond_Zopp sb (Zpos (fst (shl_align mb eb ez)))).
  assert (Hez : (emin64 <= ez)%Z).
  { apply valid_finite in Va, Vb. unfold ez. lia. }
  unfold binary_normalize.
  destruct (va - vb)%Z as [|z|z] eqn:Ez.
  - replace (vb ?= va)%Z with Eq by (symmetry; apply Z.compare_eq_iff; lia). reflexivity.
  - replace (vb ?= va)%Z with Lt by (symmetry; apply Z.compare_lt_iff; lia).
    destruct (binary_round_signed false z ez Hez) as [->|[m [e ->]]]; reflexivity.
  - replace (vb ?= va)%Z with Gt by (symmetry; apply Z.compare_gt_iff; lia).
    destruct (binary_round_signed true z ez Hez) as [->|[m [e ->]]]; reflexivity.
Qed.

End FloatSub.

(** ** [[...new Set(l)].sort((a, b) => a - b)] *)

Module SortFacts.

Import Js FloatOrder FloatSub.
Local Open Scope float_scope.

(** Strictly ascending: each element lies below all later ones. *)
Definition strictlyAscending (l : list float) : Prop :=
  StronglySorted (fun a b => (a <? b) = true) l.

Lemma trichotomy (a b : float) :
  isNaN a = false -> isNaN b = false -> (b =? a) = false -> (b <? a) = false ->
  (a <? b) = true.
Proof.
  unfold isNaN. intros Ha Hb. apply negb_false_iff in Ha, Hb. revert Ha Hb.
  by_spec a b a.
Qed.

Lemma eqb_refl_notNaN (a : float) : isNaN a = false -> (a =? a) = true.
Proof. unfold isNaN. intros H. apply negb_false_iff in H. exact H. Qed.

Lemma sameValueZero_refl (a : float) : sameValueZero a a = true.
Proof.
  unfold sameValueZero, isNaN. destruct (a =? a); reflexivity.
Qed.

Lemma sameValueZero_notNaN (a b : float) :
  isNaN a = false -> sameValueZero a b = (a =? b).
Proof. unfold sameValueZero. intros ->. apply orb_false_r. Qed.

Section Comparator.
Context {A : Type}.
Variable comparefn : A -> A -> float.

Lemma sort_insert_perm (x : A) (l : list A) :
  Permutation (sort_insert comparefn x l) (x :: l).
Proof.
  induction l as [|y l IH]; simpl; [apply Permutation_refl|].
  destruct (0 <? comparefn x y); [|apply Permutation_refl].
  apply Permutation_trans with (y :: x :: l); [|apply perm_swap].
  apply perm_skip, IH.
Qed.

Lemma Array_sort_perm (l : list A) : Permutation (Array_sort comparefn l) l.
Proof.
  induction l as [|x l IH]; simpl; [apply perm_nil|].
  apply Permutation_trans with (x :: Array_sort comparefn l);
    [apply sort_insert_perm | apply perm_skip, IH].
Qed.
End Comparator.

Definition byDifference (a b : float) : float := a - b.

Lemma sort_insert_ascending (x : float) (l : list float) :
  isNaN x = false ->
  Forall (fun y => isNaN y = false /\ (y =? x) = false) l ->
  strictlyAscending l ->
  strictlyAscending (sort_insert byDifference x l).
Proof.
  intros Hx. induction l as [|y l IH]; intros Hl Hs; simpl.
  - constructor; constructor.
  - unfold byDifference at 1. rewrite sub_pos_iff.
    inversion Hl as [|? ? [Hy Hyx] Hl']; subst.
    apply StronglySorted_inv in Hs. destruct Hs as [Hs Hyl].
    destruct (y <? x) eqn:Eyx.
    + constructor; [apply IH; assumption|].
      apply (Permutation_Forall (Permutation_sym (sort_insert_perm byDifference x l))).
      constructor; assumption.
    + assert (Hxy : (x <? y) = true) by (apply trichotomy; assumption).
      constructor; [constructor; assumption|].
      constructor; [exact Hxy|].
      eapply Forall_impl; [|exact Hyl]. intros z Hz. simpl in Hz.
      apply ltb_trans with y; assumption.
Qed.

(** Sorting by [a - b] puts pairwise different numbers in strictly ascending
    order. *)
Lemma Array_sort_ascending (l : list float) :
  Forall (fun y => isNaN y = false) l ->
  ForallOrdPairs (fun a b => (b =? a) = false) l ->
  strictlyAscending (Array_sort byDifference l).
Proof.
  induction l as [|x l IH]; intros Hn Hd; simpl.
  - constructor.
  - inversion Hn as [|? ? Hx Hn']; subst. inversion Hd as [|? ? Hxl Hd']; subst.
    apply sort_insert_ascending; [exact Hx | | apply IH; assumption].
    apply (Permutation_Forall (Permutation_sym (Array_sort_perm byDifference l))).
    apply Forall_forall. intros y Hy. split.
    + rewrite Forall_forall in Hn'. apply Hn', Hy.
    + rewrite Forall_forall in Hxl. apply Hxl, Hy.
Qed.

Lemma Set_of_incl (seen l : list float) (y : float) :
  In y (Set_of seen l) -> In y l.
Proof.
  revert seen. induction l as [|x l IH]; intros seen H; simpl in *; [exact H|].
  destruct (existsb (sameValueZero x) seen).
  - right. eapply IH, H.
  - destruct H as [->|H]; [left; reflexivity | right; eapply IH, H].
Qed.

Lemma Set_of_fresh (seen l : list float) :
  Forall (fun y => forall s, In s seen -> sameValueZero y s = false) (Set_of seen l).
Proof.
  revert seen. induction l as [|x l IH]; intros seen; simpl; [constructor|].
  destruct (existsb (sameValueZero x) seen) eqn:E; [apply IH|].
  constructor.
  - intros s Hs. destruct (sameValueZero x s) eqn:Exs; [|reflexivity].
    assert (existsb (sameValueZero x) seen = true)
      by (apply existsb_exists; exists s; auto).
    congruence.
  - eapply Forall_impl; [|apply (IH (x :: seen))].
    intros y Hy s Hs. apply Hy. right. exact Hs.
Qed.

Lemma Set_of_distinct (seen l : list float) :
  ForallOrdPairs (fun a b => sameValueZero b a = false) (Set_of seen l).
Proof.
  revert seen. induction l as [|x l IH]; intros seen; simpl; [constructor|].
  destruct (existsb (sameValueZero x) seen); [apply IH|].
  constructor; [|apply IH].
  eapply Forall_impl; [|apply (Set_of_fresh (x :: seen) l)].
  intros y Hy. apply Hy. left. reflexivity.
Qed.

(** Every number of [l] has its representative, up to SameValueZero, among
    the numbers seen before or among those the [Set] keeps. *)
Lemma Set_of_covers (seen l : list float) (x : float) :
  In x l ->
  exists y, (In y seen \/ In y (Set_of seen l)) /\ sameValueZero x y = true.
Proof.
  revert seen. induction l as [|a l IH]; intros seen H; [destruct H|].
  simpl. destruct H as [->|H].
  - destruct (existsb (sameValueZero x) seen) eqn:E.
    + apply existsb_exists in E. destruct E as [y [Hy Hxy]]. exists y. auto.
    + exists x. split; [right; left; reflexivity | apply sameValueZero_refl].
  - destruct (existsb (sameValueZero a) seen) eqn:E.
    + apply IH, H.
    + destruct (IH (a :: seen) H) as [y [[[->|Hy]|Hy] Hxy]].
      * exists y. split; [right; left; reflexivity | exact Hxy].
      * exists y. auto.
      * exists y. split; [right; right; exact Hy | exact Hxy].
Qed.

(** The sorted, deduplicated list of the numbers of [l]: strictly ascending,
    made of numbers of [l], and holding an equal of each number of [l]. *)
Lemma sorted_dedup (l : list float) :
  Forall (fun y => isNaN y = false) l ->
  let r := Array_sort byDifference (dedup l) in
  strictlyAscending r /\
  (forall y, In y r -> In y l) /\
  (forall x, In x l -> exists y, In y r /\ (x =? y) = true).
Proof.
  intros Hn r. unfold r, dedup.
  assert (Hin : forall y, In y (Set_of [] l) -> In y l) by (intros y; apply Set_of_incl).
  rewrite Forall_forall in Hn.
  split; [|split].
  - apply Array_sort_ascending.
    + apply Forall_forall. intros y Hy. apply Hn, Hin, Hy.
    + pose proof (Set_of_distinct [] l) as Hd.
      assert (Hall : Forall (fun y => isNaN y = false) (Set_of [] l))
        by (apply Forall_forall; intros y Hy; apply Hn, Hin, Hy).
      induction Hd as [|a t Ha Hd IH]; [constructor|].
      inversion Hall as [|? ? Hna Hnt]; subst.
      constructor; [|apply IH; [intros y Hy; apply Hin; right; exact Hy | exact Hnt]].
      rewrite Forall_forall in Ha, Hnt. apply Forall_forall. intros b Hb.
      rewrite <- (sameValueZero_notNaN b a) by (apply Hnt, Hb). apply Ha, Hb.
  - intros y Hy. apply Hin.
    apply (Permutation_in _ (Array_sort_perm byDifference (Set_of [] l))), Hy.
  - intros x Hx. destruct (Set_of_covers [] l x Hx) as [y [[[]|Hy] Hxy]].
    exists y. split.
    + apply (Permutation_in _ (Permutation_sym (Array_sort_perm byDifference (Set_of [] l)))), Hy.
    + rewrite <- (sameValueZero_notNaN x y) by (apply Hn, Hx). exact Hxy.
Qed.

End SortFacts.

(** ** [interpolate] (App.jsx, lines 41-52) *)

Module Interp.

Import Js FloatOrder.
Local Open Scope float_scope.

(** The loop's test [x >= xArray[i] && x <= xArray[i + 1]]. *)
Definition inSegment (x : float) (xArray : list float) (i : nat) : bool :=
  (at_ xArray i <=? x) && (x <=? at_ xArray (i + 1)).

(** The value returned from inside the loop. *)
Definition segmentValue (x : float) (xArray yArray : list float) (i : nat) : float :=
  let ratio := (x - at_ xArray i) / (at_ xArray (i + 1) - at_ xArray i) in
  at_ yArray i + ratio * (at_ yArray (i + 1) - at_ yArray i).

(** The [for] loop over the indices [idxs]: [Some v] when it returns [v],
    [None] when it runs to its end. *)
Fixpoint interpolate_loop (x : float) (xArray yArray : list float) (idxs : list nat)
  : option float :=
  match idxs with
  | [] => None
  | i :: rest =>
      if inSegment x xArray i then Some (segmentValue x xArray yArray i)
      else interpolate_loop x xArray yArray rest
  end.

(** [xArray] is [None] when the argument is missing ([undefined] or [null]);
    [yArray] is an array, which the function reads without a check.  A read
    outside [yArray] yields [undefined], which stands here as NaN. *)
Definition interpolate (x : float) (xArray : option (list float)) (yArray : list float)
  : float :=
  match xArray with
  | None => 0
  | Some xs =>
      if Nat.eqb (length xs) 0 then 0
      else
        match interpolate_loop x xs yArray (seq 0 (length xs - 1)) with
        | Some v => v
        | None =>
            if x <? at_ xs 0 then at_ yArray 0
            else if at_ xs (length xs - 1) <? x then at_ yArray (length yArray - 1)
            else 0
        end
  end.

(** Knots in ascending order: each is at most the next one. *)
Fixpoint ascending (l : list float) : bool :=
  match l with
  | a :: (b :: _) as t => (a <=? b) && ascending t
  | _ => true
  end.

Lemma ascending_step (l : list float) (i : nat) :
  ascending l = true -> i + 1 < length l -> (at_ l i <=? at_ l (i + 1)) = true.
Proof.
  revert i. induction l as [|a [|b t] IH]; intros i Hs Hi; simpl in Hi; try lia.
  change (ascending (a :: b :: t)) with ((a <=? b) && ascending (b :: t)) in Hs.
  apply andb_true_iff in Hs. destruct Hs as [Hab Ht].
  destruct i as [|i]; [exact Hab|].
  apply (IH i Ht). simpl. lia.
Qed.

Lemma ascending_le (l : list float) (i j : nat) :
  ascending l = true -> i < j -> j < length l -> (at_ l i <=? at_ l j) = true.
Proof.
  intros Hs Hij Hj. induction j as [|j IH]; [lia|].
  assert (Hstep : (at_ l j <=? at_ l (j + 1)) = true)
    by (apply ascending_step; [exact Hs | lia]).
  replace (S j) with (j + 1)%nat by lia.
  destruct (Nat.eq_dec i j) as [->|Hne]; [exact Hstep|].
  apply leb_trans with (at_ l j); [apply IH; lia | exact Hstep].
Qed.

Lemma loop_none (x : float) (xs ys : list float) (idxs : list nat) :
  (forall i, In i idxs -> inSegment x xs i = false) ->
  interpolate_loop x xs ys idxs = None.
Proof.
  induction idxs as [|i rest IH]; intros H; simpl; [reflexivity|].
  rewrite (H i) by (left; reflexivity). apply IH. intros j Hj. apply H. right. exact Hj.
Qed.

(** The loop returns at the first index whose segment holds [x]. *)
Lemma loop_first (x : float) (xs ys : list float) (n i : nat) :
  i < n -> inSegment x xs i = true ->
  (forall j, j < i -> inSegment x xs j = false) ->
  interpolate_loop x xs ys (seq 0 n) = Some (segmentValue x xs ys i).
Proof.
  intros Hi Hin Hbefore.
  assert (G : forall k m, k <= i -> i < k + m ->
            interpolate_loop x xs ys (seq k m) = Some (segmentValue x xs ys i)).
  { intros k m. revert k. induction m as [|m IH]; intros k Hk Hm; [lia|].
    simpl. destruct (Nat.eq_dec k i) as [->|Hne].
    - rewrite Hin. reflexivity.
    - rewrite (Hbefore k) by lia. apply IH; lia. }
  apply G; lia.
Qed.

(** Below the first knot no segment holds [x]. *)
Lemma below_no_segment (x : float) (xs : list float) (i : nat) :
  ascending xs = true -> (x <? at_ xs 0) = true -> i + 1 < length xs ->
  inSegment x xs i = false.
Proof.
  intros Hs Hx Hi. unfold inSegment. apply andb_false_iff. left.
  destruct i as [|i]; [apply ltb_not_leb, Hx|].
  apply ltb_not_leb. apply ltb_leb_trans with (at_ xs 0); [exact Hx|].
  apply ascending_le; [exact Hs | lia | lia].
Qed.

(** Above the last knot no segment holds [x]. *)
Lemma above_no_segment (x : float) (xs : list float) (i : nat) :
  ascending xs = true -> (at_ xs (length xs - 1) <? x) = true -> i + 1 < length xs ->
  inSegment x xs i = false.
Proof.
  intros Hs Hx Hi. unfold inSegment. apply andb_false_iff. right.
  apply ltb_not_leb.
  destruct (Nat.eq_dec (i + 1) (length xs - 1)) as [->|Hne]; [exact Hx|].
  apply leb_ltb_trans with (at_ xs (length xs - 1)); [|exact Hx].
  apply ascending_le; [exact Hs | lia | lia].
Qed.

(** Between the first and the last knot some segment holds [x]. *)
Lemma inside_some_segment (x : float) (xs : list float) :
  ascending xs = true -> 2 <= length xs ->
  (at_ xs 0 <=? x) = true -> (x <=? at_ xs (length xs - 1)) = true ->
  exists i, i + 1 < length xs /\ inSegment x xs i = true /\
            forall j, j < i -> inSegment x xs j = false.
Proof.
  intros Hs Hlen Hlo Hhi.
  assert (G : forall k, k + 1 < length xs ->
            (forall j, j < k -> inSegment x xs j = false) ->
            (at_ xs k <=? x) = true ->
            exists i, i + 1 < length xs /\ inSegment x xs i = true /\
                      forall j, j < i -> inSegment x xs j = false).
  { intros k. remember (length xs - k)%nat as d eqn:Hd. revert k Hd.
    induction d as [|d IH]; intros k Hd Hk Hbefore Hle; [lia|].
    destruct (inSegment x xs k) eqn:Hin.
    - exists k. auto.
    - unfold inSegment in Hin. rewrite Hle in Hin. simpl in Hin.
      assert (Hnx : isNaN x = false) by (apply (leb_notNaN _ _ Hle)).
      assert (Hnk : isNaN (at_ xs (k + 1)) = false).
      { apply (leb_notNaN (at_ xs k) (at_ xs (k + 1))).
        apply ascending_step; [exact Hs | exact Hk]. }
      assert (Hlt : (at_ xs (k + 1) <? x) = true) by (apply leb_total; assumption).
      destruct (Nat.eq_dec (k + 1) (length xs - 1)) as [He|Hne].
      + rewrite <- He in Hhi. rewrite (ltb_not_leb _ _ Hlt) in Hhi. discriminate.
      + apply (IH (k + 1)%nat); [lia | lia | | apply ltb_leb, Hlt].
        intros j Hj. destruct (Nat.eq_dec j k) as [->|Hjk]; [|apply Hbefore; lia].
        unfold inSegment. rewrite Hle, Hin. reflexivity. }
  apply (G 0%nat); [lia | intros j Hj; lia | exact Hlo].
Qed.

(** What [interpolate] returns at [x = 5] for the single knot [5] with value
    [7], and at [x = 2] for the knots [5, 1, 3]: the knot [5] lies inside the
    domain [[5, 5]] and on either side of it the result is clamped to [7], yet
    at the knot itself the final [return 0] is reached; and with knots out of
    order, an [x] strictly below the first knot is interpolated between later
    ones instead of being clamped to the first value [50]. *)
Lemma interpolate_not_always_clamped :
  ((at_ [5] 0 <=? 5) = true /\ (5 <=? at_ [5] 0) = true /\
   interpolate 4 (Some [5]) [7] = 7 /\ interpolate 6 (Some [5]) [7] = 7 /\
   interpolate 5 (Some [5]) [7] = 0) /\
  ((2 <? at_ [5; 1; 3] 0) = true /\
   interpolate 2 (Some [5; 1; 3]) [50; 10; 30] = 20).
Proof. vm_compute. repeat split. Qed.

(** C7 (amended): [interpolate] is a total function; for a missing or empty
    x-array it returns 0; for knots in ascending order, an [x] strictly below
    the first knot yields the first y, an [x] strictly above the last knot
    yields the last y, and with at least two knots an [x] between the first
    and the last knot yields the linear interpolation on the first segment
    that holds it; and [interpolate(50, [0,100], [0,200]) = 100],
    [interpolate(-10, ...) = 0], [interpolate(150, ...) = 200]. *)
Theorem interpolate_clamps_and_interpolates (x : float) (xs ys : list float)
  (Hasc : ascending xs = true) :
  interpolate x None ys = 0 /\
  interpolate x (Some []) ys = 0 /\
  ((x <? at_ xs 0) = true -> interpolate x (Some xs) ys = at_ ys 0) /\
  ((at_ xs (length xs - 1) <? x) = true ->
     interpolate x (Some xs) ys = at_ ys (length ys - 1)) /\
  (2 <= length xs -> (at_ xs 0 <=? x) = true -> (x <=? at_ xs (length xs - 1)) = true ->
     exists i, i + 1 < length xs /\ inSegment x xs i = true /\
               (forall j, j < i -> inSegment x xs j = false) /\
               interpolate x (Some xs) ys = segmentValue x xs ys i) /\
  interpolate 50 (Some [0; 100]) [0; 200] = 100 /\
  interpolate (-10) (Some [0; 100]) [0; 200] = 0 /\
  interpolate 150 (Some [0; 100]) [0; 200] = 200.
Proof.
  split; [reflexivity|]. split; [reflexivity|].
  assert (Hempty : forall y, (y <? at_ [] 0) = false /\ (at_ [] 0 <? y) = false).
  { intros y. split.
    - destruct (y <? at_ [] 0) eqn:E; [|reflexivity].
      apply ltb_notNaN in E. destruct E as [_ E]. discriminate E.
    - destruct (at_ [] 0 <? y) eqn:E; [|reflexivity].
      apply ltb_notNaN in E. destruct E as [E _]. discriminate E. }
  split; [|split; [|split]].
  - intros Hx. destruct xs as [|a t] eqn:Exs.
    { rewrite (proj1 (Hempty x)) in Hx. discriminate. }
    rewrite <- Exs in *. unfold interpolate.
    replace (Nat.eqb (length xs) 0) with false by (rewrite Exs; reflexivity).
    rewrite loop_none.
    + rewrite Hx. reflexivity.
    + intros i Hi. apply in_seq in Hi.
      apply below_no_segment; [exact Hasc | exact Hx | lia].
  - intros Hx. destruct xs as [|a t] eqn:Exs.
    { apply ltb_notNaN in Hx. destruct Hx as [E _]. discriminate E. }
    rewrite <- Exs in *. unfold interpolate.
    replace (Nat.eqb (length xs) 0) with false by (rewrite Exs; reflexivity).
    rewrite loop_none.
    + assert (Hlow : (x <? at_ xs 0) = false).
      { apply leb_not_ltb.
        destruct (Nat.eq_dec (length xs - 1) 0) as [E0|E0].
        - rewrite E0 in Hx. apply ltb_leb, Hx.
        - apply ltb_leb. apply leb_ltb_trans with (at_ xs (length xs - 1)); [|exact Hx].
          apply ascending_le; [exact Hasc | lia | rewrite Exs; simpl; lia]. }
      rewrite Hlow, Hx. reflexivity.
    + intros i Hi. apply in_seq in Hi.
      apply above_no_segment; [exact Hasc | exact Hx | lia].
  - intros Hlen Hlo Hhi.
    destruct (inside_some_segment x xs Hasc Hlen Hlo Hhi) as [i [Hi [Hin Hbefore]]].
    exists i. repeat split; try assumption.
    unfold interpolate.
    replace (Nat.eqb (length xs) 0) with false by (symmetry; apply Nat.eqb_neq; lia).
    rewrite (loop_first x xs ys (length xs - 1) i); [reflexivity | lia | exact Hin | exact Hbefore].
  - vm_compute. repeat split.
Qed.

(** The theorem at the knots [0, 100] with values [0, 200] and [x = 50]. *)
Lemma interpolate_clamps_and_interpolates_witness :
  ascending [0; 100] = true /\
  exists i, i + 1 < 2 /\ inSegment 50 [0; 100] i = true /\
            interpolate 50 (Some [0; 100]) [0; 200] = segmentValue 50 [0; 100] [0; 200] i.
Proof.
  split; [reflexivity|].
  destruct (interpolate_clamps_and_interpolates 50 [0; 100] [0; 200] eq_refl)
    as [_ [_ [_ [_ [H _]]]]].
  destruct (H (le_n 2) eq_refl eq_refl) as [i [Hi [Hin [_ Hv]]]].
  exists i. repeat split; assumption.
Defined.

End Interp.

(** ** The run stitcher ([SimulationBuilder], App.jsx lines 3374-3577) *)

Module Stitch.

Import Js FloatOrder.
Local Open Scope float_scope.

(** A row of an uploaded simulation file, as [parseSimulationCSV] builds it. *)
Record SimulationSample := mkSample {
  md : float;
  rih : option float;
  pooh : option float
}.

(** A point of [chartData]. *)
Record StitchedPoint := mkPoint {
  p_md : float;
  rih_standard_1 : option float;
  rih_standard_2 : option float;
  rih_tractor : option float;
  p_pooh : option float
}.

(** The [files] state: a slot is [None] until a file is uploaded. *)
Record Files := mkFiles {
  f_rih : option (list SimulationSample);
  f_tractor : option (list SimulationSample);
  f_pooh : option (list SimulationSample)
}.

(** [p => Math.abs(p.md - md) < 0.5] *)
Definition near (m : float) (p : SimulationSample) : bool :=
  Math_abs (md p - m) <? 0.5.

(** [file.find(p => Math.abs(p.md - md) < 0.5)] *)
Definition findNear (file : list SimulationSample) (m : float) : option SimulationSample :=
  find (near m) file.

(** [tractorDepth || Math.max(...files.rih.map(p => p.md))] *)
Definition effectiveForceDepth (tractorDepth : float) (rihFile : list SimulationSample) : float :=
  orElse tractorDepth (Math_max (map md rihFile)).

(** [stopTractorDepth > forceDepth ? stopTractorDepth : Infinity] *)
Definition effectiveStopDepth (stopTractorDepth forceDepth : float) : float :=
  if forceDepth <? stopTractorDepth then stopTractorDepth else infinity.

Definition mdsOf (file : option (list SimulationSample)) : list float :=
  match file with Some l => map md l | None => [] end.

(** [allMDs]: the MDs of the three files, through a [Set], sorted by [a - b]. *)
Definition allMDs (rihFile tractorFile : list SimulationSample)
  (poohFile : option (list SimulationSample)) : list float :=
  Array_sort (fun a b => a - b)
    (dedup (map md rihFile ++ map md tractorFile ++ mdsOf poohFile)).

Inductive PoohSource := FromRih | FromOverride | FromTractor.

(** The variables the [forEach] callback updates, with the array it fills.
    An index is [-1] until a point is recorded. *)
Record PassState := mkState {
  merged : list StitchedPoint;
  lastRihStandard1Value : option float;
  lastRihStandard1Index : Z;
  lastRihTractorValue : option float;
  lastRihTractorIndex : Z
}.

Definition initialState : PassState := mkState [] None (-1) None (-1).

Section Pass.
Variables rihFile tractorFile : list SimulationSample.
Variable poohFile : option (list SimulationSample).
Variables forceDepth stopDepth : float.

Definition poohSource : PoohSource :=
  match poohFile with Some _ => FromOverride | None => FromTractor end.

(** The POOH value of a point, "independent of RIH logic". *)
Definition poohAt (m : float) (tractorOffPoint tractorOnPoint : option SimulationSample)
  : option float :=
  match poohSource with
  | FromOverride =>
      match poohFile with
      | Some file => match findNear file m with Some p => pooh p | None => None end
      | None => None
      end
  | FromTractor => match tractorOnPoint with Some p => pooh p | None => None end
  | FromRih => match tractorOffPoint with Some p => pooh p | None => None end
  end.

(** One call of the [forEach] callback, on [(md, index)]. *)
Definition stitchStep (st : PassState) (mi : float * nat) : PassState :=
  let '(m, index) := mi in
  let tractorOffPoint := findNear rihFile m in
  let tractorOnPoint := findNear tractorFile m in
  let ph := poohAt m tractorOffPoint tractorOnPoint in
  if m <? forceDepth then
    match tractorOffPoint with
    | Some p =>
        mkState (merged st ++ [mkPoint m (rih p) None None ph])
                (rih p) (Z.of_nat index)
                (lastRihTractorValue st) (lastRihTractorIndex st)
    | None =>
        mkState (merged st ++ [mkPoint m None None None ph])
                (lastRihStandard1Value st) (lastRihStandard1Index st)
                (lastRihTractorValue st) (lastRihTractorIndex st)
    end
  else if (forceDepth <=? m) && (m <? stopDepth) then
    match tractorOnPoint with
    | Some p =>
        mkState (merged st ++ [mkPoint m None None (rih p) ph])
                (lastRihStandard1Value st) (lastRihStandard1Index st)
                (rih p) (Z.of_nat index)
    | None =>
        mkState (merged st ++ [mkPoint m None None None ph])
                (lastRihStandard1Value st) (lastRihStandard1Index st)
                (lastRihTractorValue st) (lastRihTractorIndex st)
    end
  else
    let std2 :=
      match tractorOffPoint with
      | Some p => rih p
      | None => lastRihStandard1Value st
      end in
    mkState (merged st ++ [mkPoint m None std2 None ph])
            (lastRihStandard1Value st) (lastRihStandard1Index st)
            (lastRihTractorValue st) (lastRihTractorIndex st).

(** [allMDs.forEach((md, index) => ...)] on the list [mds]. *)
Definition mainPass (mds : list float) : PassState :=
  fold_left stitchStep (combine mds (seq 0 (length mds))) initialState.

Definition setTractor (v : option float) (p : StitchedPoint) : StitchedPoint :=
  mkPoint (p_md p) (rih_standard_1 p) (rih_standard_2 p) v (p_pooh p).

Definition setStandard2 (v : option float) (p : StitchedPoint) : StitchedPoint :=
  mkPoint (p_md p) (rih_standard_1 p) v (rih_tractor p) (p_pooh p).

(** [a[i] = f(a[i])] for an index inside the array. *)
Fixpoint updateAt (i : nat) (f : StitchedPoint -> StitchedPoint) (l : list StitchedPoint)
  : list StitchedPoint :=
  match l, i with
  | [], _ => []
  | p :: t, O => f p :: t
  | p :: t, S i' => p :: updateAt i' f t
  end.

Definition isNull (v : option float) : bool :=
  match v with None => true | Some _ => false end.

(** "CONNECT THE LINES 1: Standard 1 -> Tractor" *)
Definition connectStandard1 (st : PassState) (m : list StitchedPoint) : list StitchedPoint :=
  let idx := lastRihStandard1Index st in
  if negb (Z.eqb idx (-1)) && Z.ltb idx (Z.of_nat (length m)) then
    match nth_error m (Z.to_nat idx) with
    | Some pt =>
        if p_md pt <? stopDepth then
          if isNull (rih_tractor pt)
          then updateAt (Z.to_nat idx) (setTractor (lastRihStandard1Value st)) m
          else m
        else m
    | None => m
    end
  else m.

(** "CONNECT THE LINES 2: Tractor -> Standard 2" *)
Definition connectTractor (st : PassState) (m : list StitchedPoint) : list StitchedPoint :=
  let idx := lastRihTractorIndex st in
  if negb (Z.eqb idx (-1)) && Z.ltb idx (Z.of_nat (length m)) then
    match nth_error m (Z.to_nat idx), nth_error m (Z.to_nat (idx + 1)) with
    | Some pt, Some nextPoint =>
        if negb (isNull (rih_standard_2 nextPoint)) || negb (isNull (rih_standard_2 pt)) then
          if isNull (rih_standard_2 pt)
          then updateAt (Z.to_nat idx) (setStandard2 (lastRihTractorValue st)) m
          else m
        else m
    | _, _ => m
    end
  else m.

End Pass.

(** The body of [handleStitch] once both mandatory files are there: the
    array handed to [setChartData]. *)
Definition stitch (rihFile tractorFile : list SimulationSample)
  (poohFile : option (list SimulationSample)) (tractorDepth stopTractorDepth : float)
  : list StitchedPoint :=
  let forceDepth := effectiveForceDepth tractorDepth rihFile in
  let stopDepth := effectiveStopDepth stopTractorDepth forceDepth in
  let st := mainPass rihFile tractorFile poohFile forceDepth stopDepth
              (allMDs rihFile tractorFile poohFile) in
  connectTractor st (connectStandard1 stopDepth st (merged st)).

(** [handleStitch]: [None] when a mandatory file is missing (the alert), else
    the stitched array. *)
Definition handleStitch (files : Files) (tractorDepth stopTractorDepth : float)
  : option (list StitchedPoint) :=
  match f_rih files, f_tractor files with
  | Some rihFile, Some tractorFile =>
      Some (stitch rihFile tractorFile (f_pooh files) tractorDepth stopTractorDepth)
  | _, _ => None
  end.

(** The auto-display effect: what [chartData] becomes while the run is not
    stitched. *)
Definition autoDisplay (files : Files) : list StitchedPoint :=
  match f_rih files with
  | None => []
  | Some rihFile =>
      let merged0 :=
        map (fun p => mkPoint (md p) (rih p) None None
                        (match f_pooh files with Some _ => None | None => pooh p end))
            rihFile in
      match f_pooh files with
      | Some poohFile =>
          map (fun p => mkPoint (p_md p) (rih_standard_1 p) (rih_standard_2 p) (rih_tractor p)
                          (match findNear poohFile (p_md p) with
                           | Some poohPoint => pooh poohPoint
                           | None => p_pooh p
                           end))
              merged0
      | None => merged0
      end
  end.

(** *** The main pass, point by point *)

Lemma combine_app_same {A B : Type} (l1 l2 : list A) (k1 k2 : list B) :
  length l1 = length k1 -> combine (l1 ++ l2) (k1 ++ k2) = combine l1 k1 ++ combine l2 k2.
Proof.
  revert k1. induction l1 as [|a l1 IH]; intros [|b k1] H; simpl in *; try discriminate.
  - reflexivity.
  - f_equal. apply IH. lia.
Qed.

Section PassFacts.
Variables rihFile tractorFile : list SimulationSample.
Variable poohFile : option (list SimulationSample).
Variables forceDepth stopDepth : float.

Local Abbreviation step := (stitchStep rihFile tractorFile poohFile forceDepth stopDepth).
Local Abbreviation pass := (mainPass rihFile tractorFile poohFile forceDepth stopDepth).

(** The RIH value of the sample a lookup found, [null] when it found none. *)
Definition rihOf (found : option SimulationSample) : option float :=
  match found with Some p => rih p | None => None end.

(** The callback records a Phase-1 value at [m]. *)
Definition records1 (m : float) : bool :=
  (m <? forceDepth) &&
  match findNear rihFile m with Some _ => true | None => false end.

(** The callback records a Phase-2 value at [m]. *)
Definition records2 (m : float) : bool :=
  negb (m <? forceDepth) && ((forceDepth <=? m) && (m <? stopDepth)) &&
  match findNear tractorFile m with Some _ => true | None => false end.

(** The point the callback pushes at [m] when the last recorded Phase-1 value
    is [last1]. *)
Definition pointFor (last1 : option float) (m : float) : StitchedPoint :=
  let ph := poohAt poohFile m (findNear rihFile m) (findNear tractorFile m) in
  if m <? forceDepth then mkPoint m (rihOf (findNear rihFile m)) None None ph
  else if (forceDepth <=? m) && (m <? stopDepth)
       then mkPoint m None None (rihOf (findNear tractorFile m)) ph
       else mkPoint m None
              (match findNear rihFile m with Some p => rih p | None => last1 end)
              None ph.

Lemma step_merged (st : PassState) (m : float) (i : nat) :
  merged (step st (m, i)) = merged st ++ [pointFor (lastRihStandard1Value st) m].
Proof.
  unfold stitchStep, pointFor, rihOf.
  destruct (m <? forceDepth); [destruct (findNear rihFile m); reflexivity|].
  destruct ((forceDepth <=? m) && (m <? stopDepth));
    [destruct (findNear tractorFile m); reflexivity|].
  reflexivity.
Qed.

Lemma step_last1 (st : PassState) (m : float) (i : nat) :
  (records1 m = true /\
   lastRihStandard1Value (step st (m, i)) = rihOf (findNear rihFile m) /\
   lastRihStandard1Index (step st (m, i)) = Z.of_nat i) \/
  (records1 m = false /\
   lastRihStandard1Value (step st (m, i)) = lastRihStandard1Value st /\
   lastRihStandard1Index (step st (m, i)) = lastRihStandard1Index st).
Proof.
  unfold stitchStep, records1, rihOf.
  destruct (m <? forceDepth); simpl.
  - destruct (findNear rihFile m); simpl; auto.
  - right. destruct ((forceDepth <=? m) && (m <? stopDepth));
      [destruct (findNear tractorFile m)|]; simpl; auto.
Qed.

Lemma step_last2 (st : PassState) (m : float) (i : nat) :
  (records2 m = true /\
   lastRihTractorValue (step st (m, i)) = rihOf (findNear tractorFile m) /\
   lastRihTractorIndex (step st (m, i)) = Z.of_nat i) \/
  (records2 m = false /\
   lastRihTractorValue (step st (m, i)) = lastRihTractorValue st /\
   lastRihTractorIndex (step st (m, i)) = lastRihTractorIndex st).
Proof.
  unfold stitchStep, records2, rihOf.
  destruct (m <? forceDepth); simpl.
  - right. destruct (findNear rihFile m); simpl; auto.
  - destruct ((forceDepth <=? m) && (m <? stopDepth)); simpl;
      [destruct (findNear tractorFile m)|]; simpl; auto.
Qed.

(** The pass over [mds] followed by one more MD. *)
Lemma pass_snoc (mds : list float) (m : float) :
  pass (mds ++ [m]) = step (pass mds) (m, length mds).
Proof.
  unfold mainPass. rewrite length_app. simpl length.
  rewrite seq_app. simpl seq.
  rewrite combine_app_same by (rewrite length_seq; reflexivity).
  rewrite fold_left_app. reflexivity.
Qed.

Lemma pass_length (mds : list float) : length (merged (pass mds)) = length mds.
Proof.
  induction mds as [|m mds IH] using rev_ind; [reflexivity|].
  rewrite pass_snoc, step_merged, !length_app, IH. reflexivity.
Qed.

(** The point at index [i] is the one pushed after the pass over the first [i]
    MDs. *)
Lemma pass_nth (mds : list float) (i : nat) (m : float) :
  nth_error mds i = Some m ->
  nth_error (merged (pass mds)) i =
    Some (pointFor (lastRihStandard1Value (pass (firstn i mds))) m).
Proof.
  revert i m. induction mds as [|x mds IH] using rev_ind; intros i m Hi.
  - destruct i; discriminate.
  - rewrite pass_snoc, step_merged.
    destruct (Nat.lt_ge_cases i (length mds)) as [Hlt|Hge].
    + rewrite nth_error_app1 in Hi by exact Hlt.
      rewrite nth_error_app1 by (rewrite pass_length; exact Hlt).
      rewrite firstn_app. replace (i - length mds)%nat with 0%nat by lia.
      simpl firstn. rewrite app_nil_r. apply IH, Hi.
    + assert (Hlen : length (mds ++ [x]) = S (length mds))
        by (rewrite length_app; simpl; lia).
      assert (Hi' : (i < length (mds ++ [x]))%nat)
        by (apply nth_error_Some; rewrite Hi; discriminate).
      assert (i = length mds) by lia. subst i.
      rewrite nth_error_app2 in Hi by lia.
      rewrite nth_error_app2 by (rewrite pass_length; lia).
      rewrite pass_length. rewrite Nat.sub_diag in *. simpl in Hi. inversion Hi; subst.
      rewrite firstn_app, firstn_all, Nat.sub_diag. simpl firstn. rewrite app_nil_r.
      reflexivity.
Qed.

Lemma pass_mds (mds : list float) : map p_md (merged (pass mds)) = mds.
Proof.
  induction mds as [|m mds IH] using rev_ind; [reflexivity|].
  rewrite pass_snoc, step_merged, !map_app, IH. simpl. f_equal. f_equal.
  unfold pointFor. destruct (m <? forceDepth); [reflexivity|].
  destruct ((forceDepth <=? m) && (m <? stopDepth)); reflexivity.
Qed.

(** Where the last recorded Phase-1 value comes from: no MD records one and
    the variables keep their initial values, or they hold the index and the
    value of the last MD that records one. *)
Definition lastRecord (records : float -> bool) (file : list SimulationSample)
  (mds : list float) (value : option float) (index : Z) : Prop :=
  ((forall j m, nth_error mds j = Some m -> records m = false) /\
   value = None /\ index = (-1)%Z) \/
  (exists i m, nth_error mds i = Some m /\ records m = true /\
     (forall j m', (i < j)%nat -> nth_error mds j = Some m' -> records m' = false) /\
     value = rihOf (findNear file m) /\ index = Z.of_nat i).

Lemma lastRecord_snoc records file mds x value index value' index' :
  lastRecord records file mds value index ->
  (records x = true /\ value' = rihOf (findNear file x) /\
   index' = Z.of_nat (length mds)) \/
  (records x = false /\ value' = value /\ index' = index) ->
  lastRecord records file (mds ++ [x]) value' index'.
Proof.
  intros Hprev [[Hx [Hv Hi]]|[Hx [Hv Hi]]]; subst.
  - right. exists (length mds), x. repeat split; auto.
    + rewrite nth_error_app2, Nat.sub_diag by lia. reflexivity.
    + intros j m' Hj Hnth.
      assert (j < length (mds ++ [x]))%nat by (apply nth_error_Some; rewrite Hnth; discriminate).
      rewrite length_app in H. simpl in H. lia.
  - assert (Hsnoc : forall j m', nth_error (mds ++ [x]) j = Some m' ->
              nth_error mds j = Some m' \/ ((length mds <= j)%nat /\ m' = x)).
    { intros j m' Hnth. destruct (Nat.lt_ge_cases j (length mds)) as [Hlt|Hge].
      - left. rewrite nth_error_app1 in Hnth by exact Hlt. exact Hnth.
      - right. split; [exact Hge|].
        rewrite nth_error_app2 in Hnth by exact Hge.
        destruct (j - length mds)%nat as [|k]; simpl in Hnth;
          [congruence | destruct k; discriminate]. }
    destruct Hprev as [[Hnone [Hv Hi]]|[i [m [Hnth [Hrec [Hafter [Hv Hi]]]]]]]; subst.
    + left. repeat split; auto. intros j m' Hj.
      destruct (Hsnoc j m' Hj) as [H|[_ ->]]; [eapply Hnone; exact H | exact Hx].
    + right. exists i, m. repeat split; auto.
      * rewrite nth_error_app1; [exact Hnth|]. apply nth_error_Some. rewrite Hnth. discriminate.
      * intros j m' Hij Hj.
        destruct (Hsnoc j m' Hj) as [H|[_ ->]]; [eapply Hafter; eassumption | exact Hx].
Qed.

Lemma pass_last1 (mds : list float) :
  lastRecord records1 rihFile mds
    (lastRihStandard1Value (pass mds)) (lastRihStandard1Index (pass mds)).
Proof.
  induction mds as [|x mds IH] using rev_ind.
  - left. repeat split. intros [|j] m H; discriminate.
  - rewrite pass_snoc. eapply lastRecord_snoc; [exact IH|].
    destruct (step_last1 (pass mds) x (length mds)) as [[H1 [H2 H3]]|[H1 [H2 H3]]];
      [left | right]; auto.
Qed.

Lemma pass_last2 (mds : list float) :
  lastRecord records2 tractorFile mds
    (lastRihTractorValue (pass mds)) (lastRihTractorIndex (pass mds)).
Proof.
  induction mds as [|x mds IH] using rev_ind.
  - left. repeat split. intros [|j] m H; discriminate.
  - rewrite pass_snoc. eapply lastRecord_snoc; [exact IH|].
    destruct (step_last2 (pass mds) x (length mds)) as [[H1 [H2 H3]]|[H1 [H2 H3]]];
      [left | right]; auto.
Qed.

End PassFacts.

(** *** The connectors *)

Lemma updateAt_nth (i : nat) (f : StitchedPoint -> StitchedPoint)
  (l : list StitchedPoint) (j : nat) :
  nth_error (updateAt i f l) j =
    if Nat.eqb i j then option_map f (nth_error l j) else nth_error l j.
Proof.
  revert i j. induction l as [|p t IH]; intros i j.
  - destruct i, j; simpl; try reflexivity. destruct (Nat.eqb i j); reflexivity.
  - destruct i as [|i], j as [|j]; simpl; try reflexivity. apply IH.
Qed.

(** What a connector does to the array: nothing, or one write at an index. *)
Inductive Connected (f : StitchedPoint -> StitchedPoint)
  (m : list StitchedPoint) : option nat -> list StitchedPoint -> Prop :=
| Untouched : Connected f m None m
| Written (i : nat) (pt : StitchedPoint) :
    nth_error m i = Some pt -> Connected f m (Some i) (updateAt i f m).

Lemma Connected_nth f m w r (j : nat) :
  Connected f m w r ->
  nth_error r j = if (match w with Some i => Nat.eqb i j | None => false end)
                  then option_map f (nth_error m j) else nth_error m j.
Proof. intros [|i pt H]; [reflexivity | apply updateAt_nth]. Qed.

Section ConnectorFacts.
Variable stopDepth : float.
Variable st : PassState.

(** Connector 1 writes [rih_tractor] of the last Phase-1 point when that
    point lies below the stop depth and its [rih_tractor] is still null. *)
Lemma connectStandard1_spec (m : list StitchedPoint) :
  (-1 <= lastRihStandard1Index st)%Z ->
  exists w, Connected (setTractor (lastRihStandard1Value st)) m w
              (connectStandard1 stopDepth st m) /\
    forall i, w = Some i <->
      (lastRihStandard1Index st = Z.of_nat i /\
       exists pt, nth_error m i = Some pt /\ (p_md pt <? stopDepth) = true /\
                  rih_tractor pt = None).
Proof.
  intros Hidx. unfold connectStandard1.
  destruct (Z.eqb_spec (lastRihStandard1Index st) (-1)) as [E|E]; simpl.
  { exists None. split; [constructor|]. intros i. split; [discriminate|].
    intros [Hi _]. exfalso. lia. }
  destruct (Z.ltb_spec (lastRihStandard1Index st) (Z.of_nat (length m))) as [L|L].
  2:{ exists None. split; [constructor|]. intros i. split; [discriminate|].
      intros [Hi [pt [Hpt _]]].
      assert (i < length m)%nat by (apply nth_error_Some; rewrite Hpt; discriminate).
      exfalso. lia. }
  destruct (nth_error m (Z.to_nat (lastRihStandard1Index st))) as [pt|] eqn:Ept.
  2:{ exists None. split; [constructor|]. intros i. split; [discriminate|].
      intros [Hi [pt [Hpt _]]]. rewrite Hi, Nat2Z.id in Ept. congruence. }
  destruct (p_md pt <? stopDepth) eqn:Estop.
  2:{ exists None. split; [constructor|]. intros i. split; [discriminate|].
      intros [Hi [pt' [Hpt [Hs _]]]]. rewrite Hi, Nat2Z.id in Ept. congruence. }
  destruct (rih_tractor pt) as [v|] eqn:Etr; simpl.
  { exists None. split; [constructor|]. intros i. split; [discriminate|].
    intros [Hi [pt' [Hpt [_ Hn]]]]. rewrite Hi, Nat2Z.id in Ept. congruence. }
  exists (Some (Z.to_nat (lastRihStandard1Index st))). split; [econstructor; exact Ept|].
  intros i. split.
  - intros H. inversion H; subst. split; [lia|]. exists pt. auto.
  - intros [Hi _]. rewrite Hi, Nat2Z.id. reflexivity.
Qed.

(** Connector 2 writes [rih_standard_2] of the last Phase-2 point when the
    point right after it has a [rih_standard_2] and its own is still null. *)
Lemma connectTractor_spec (m : list StitchedPoint) :
  (-1 <= lastRihTractorIndex st)%Z ->
  exists w, Connected (setStandard2 (lastRihTractorValue st)) m w (connectTractor st m) /\
    forall i, w = Some i <->
      (lastRihTractorIndex st = Z.of_nat i /\
       exists pt nextPoint, nth_error m i = Some pt /\
         nth_error m (i + 1) = Some nextPoint /\
         rih_standard_2 nextPoint <> None /\ rih_standard_2 pt = None).
Proof.
  intros Hidx. unfold connectTractor.
  destruct (Z.eqb_spec (lastRihTractorIndex st) (-1)) as [E|E]; simpl.
  { exists None. split; [constructor|]. intros i. split; [discriminate|].
    intros [Hi _]. exfalso. lia. }
  destruct (Z.ltb_spec (lastRihTractorIndex st) (Z.of_nat (length m))) as [L|L].
  2:{ exists None. split; [constructor|]. intros i. split; [discriminate|].
      intros [Hi [pt [nx [Hpt _]]]].
      assert (i < length m)%nat by (apply nth_error_Some; rewrite Hpt; discriminate).
      exfalso. lia. }
  assert (Hnext : forall i, lastRihTractorIndex st = Z.of_nat i ->
            Z.to_nat (lastRihTractorIndex st + 1) = (i + 1)%nat) by (intros; lia).
  destruct (nth_error m (Z.to_nat (lastRihTractorIndex st))) as [pt|] eqn:Ept.
  2:{ exists None. split; [constructor|]. intros i. split; [discriminate|].
      intros [Hi [pt [nx [Hpt _]]]]. rewrite Hi, Nat2Z.id in Ept. congruence. }
  destruct (nth_error m (Z.to_nat (lastRihTractorIndex st + 1))) as [nx|] eqn:Enx.
  2:{ exists None. split; [constructor|]. intros i. split; [discriminate|].
      intros [Hi [pt' [nx [_ [Hnx _]]]]]. rewrite (Hnext i Hi) in Enx. congruence. }
  destruct (rih_standard_2 pt) as [v|] eqn:E2; simpl.
  { rewrite orb_true_r.
    exists None. split; [constructor|]. intros i. split; [discriminate|].
    intros [Hi [pt' [nx' [Hpt [_ [_ Hn]]]]]]. rewrite Hi, Nat2Z.id in Ept. congruence. }
  rewrite orb_false_r.
  destruct (rih_standard_2 nx) as [v|] eqn:En; simpl.
  - exists (Some (Z.to_nat (lastRihTractorIndex st))). split; [econstructor; exact Ept|].
    intros i. split.
    + intros H. inversion H; subst. split; [lia|]. exists pt, nx.
      rewrite <- (Hnext (Z.to_nat (lastRihTractorIndex st))) by lia.
      repeat split; auto. rewrite En. discriminate.
    + intros [Hi _]. rewrite Hi, Nat2Z.id. reflexivity.
  - exists None. split; [constructor|]. intros i. split; [discriminate|].
    intros [Hi [pt' [nx' [_ [Hnx [Hn _]]]]]]. rewrite (Hnext i Hi) in Enx. congruence.
Qed.

End ConnectorFacts.

(** *** The phases and the effective depths *)

Section Depths.
Variables stopTractorDepth forceDepth : float.

Abbreviation stopDepth' := (effectiveStopDepth stopTractorDepth forceDepth).

(** A Phase-1 MD lies below the stop depth. *)
Lemma below_force_below_stop (m : float) :
  (m <? forceDepth) = true -> (m <? stopDepth') = true.
Proof.
  intros H. unfold effectiveStopDepth.
  destruct (forceDepth <? stopTractorDepth) eqn:E.
  - apply ltb_trans with forceDepth; assumption.
  - apply ltb_infinity with forceDepth, H.
Qed.


End Depths.

Section StitchTheorems.
Variables rihFile tractorFile : list SimulationSample.
Variable poohFile : option (list SimulationSample).
Variables tractorDepth stopTractorDepth : float.

Let forceDepth := effectiveForceDepth tractorDepth rihFile.
Let stopDepth := effectiveStopDepth stopTractorDepth forceDepth.
Let mds := allMDs rihFile tractorFile poohFile.
Let st := mainPass rihFile tractorFile poohFile forceDepth stopDepth mds.
Let out := stitch rihFile tractorFile poohFile tractorDepth stopTractorDepth.

Local Abbreviation pointFor' := (pointFor rihFile tractorFile poohFile forceDepth stopDepth).
Local Abbreviation records1' := (records1 rihFile forceDepth).
Local Abbreviation records2' := (records2 tractorFile forceDepth stopDepth).

Lemma handleStitch_out :
  handleStitch (mkFiles (Some rihFile) (Some tractorFile) poohFile)
    tractorDepth stopTractorDepth = Some out.
Proof. reflexivity. Qed.

Lemma pointFor_md (v : option float) (m : float) : p_md (pointFor' v m) = m.
Proof.
  unfold pointFor. destruct (m <? forceDepth); [reflexivity|].
  destruct ((forceDepth <=? m) && (m <? stopDepth)); reflexivity.
Qed.

Lemma merged_point (i : nat) (p : StitchedPoint) :
  nth_error (merged st) i = Some p ->
  exists m, nth_error mds i = Some m /\
    p = pointFor' (lastRihStandard1Value
                     (mainPass rihFile tractorFile poohFile forceDepth stopDepth
                        (firstn i mds))) m.
Proof.
  intros H.
  assert (Hi : (i < length mds)%nat).
  { unfold st in H. rewrite <- (pass_length rihFile tractorFile poohFile forceDepth stopDepth mds).
    apply nth_error_Some. rewrite H. discriminate. }
  destruct (nth_error mds i) as [m|] eqn:Em; [|apply nth_error_None in Em; lia].
  exists m. split; [reflexivity|].
  unfold st in H. rewrite (pass_nth _ _ _ _ _ mds i m Em) in H. congruence.
Qed.

Lemma last1_index_range : (-1 <= lastRihStandard1Index st)%Z.
Proof.
  destruct (pass_last1 rihFile tractorFile poohFile forceDepth stopDepth mds)
    as [[_ [_ H]]|[i [m [_ [_ [_ [_ H]]]]]]]; fold st in H; lia.
Qed.

Lemma last2_index_range : (-1 <= lastRihTractorIndex st)%Z.
Proof.
  destruct (pass_last2 rihFile tractorFile poohFile forceDepth stopDepth mds)
    as [[_ [_ H]]|[i [m [_ [_ [_ [_ H]]]]]]]; fold st in H; lia.
Qed.

(** An MD that records a value is the last such MD only at the index the
    pass ends with. *)
Lemma lastRecord_at records file value index (i : nat) (m : float) :
  lastRecord records file mds value index ->
  nth_error mds i = Some m -> records m = true ->
  (forall j m', (i < j)%nat -> nth_error mds j = Some m' -> records m' = false) ->
  index = Z.of_nat i /\ value = rihOf (findNear file m).
Proof.
  intros [[Hnone _]|[i' [m' [Hn' [Hr' [Ha' [Hv Hi]]]]]]] Hn Hr Ha.
  - rewrite (Hnone i m Hn) in Hr. discriminate.
  - destruct (Nat.lt_trichotomy i i') as [Hlt|[Heq|Hgt]].
    + rewrite (Ha i' m' Hlt Hn') in Hr'. discriminate.
    + subst i'. rewrite Hn in Hn'. inversion Hn'; subst. auto.
    + rewrite (Ha' i m Hgt Hn) in Hr. discriminate.
Qed.

(** The index a pass ends with holds an MD that records a value. *)
Lemma lastRecord_index records file value index (i : nat) :
  lastRecord records file mds value index -> index = Z.of_nat i ->
  exists m, nth_error mds i = Some m /\ records m = true /\
            value = rihOf (findNear file m).
Proof.
  intros [[_ [_ H]]|[i' [m [Hn [Hr [_ [Hv Hi]]]]]]] Hidx.
  - exfalso. lia.
  - assert (i' = i) by lia. subst i'. exists m. auto.
Qed.

(** The final array differs from the main pass's only in [rih_tractor] and
    [rih_standard_2]. *)
Lemma out_frame (i : nat) (q : StitchedPoint) :
  nth_error out i = Some q ->
  exists p, nth_error (merged st) i = Some p /\
    p_md q = p_md p /\ rih_standard_1 q = rih_standard_1 p /\ p_pooh q = p_pooh p.
Proof.
  unfold out, stitch. fold forceDepth stopDepth mds st. intros H.
  destruct (connectStandard1_spec stopDepth st (merged st) last1_index_range) as [w1 [C1 _]].
  destruct (connectTractor_spec st (connectStandard1 stopDepth st (merged st))
              last2_index_range) as [w2 [C2 _]].
  rewrite (Connected_nth _ _ _ _ i C2), !(Connected_nth _ _ _ _ i C1) in H.
  destruct (nth_error (merged st) i) as [p|];
    [|destruct w1 as [?|], w2 as [?|]; simpl in H;
      repeat match type of H with context [Nat.eqb ?a ?b] => destruct (Nat.eqb a b) end;
      discriminate].
  exists p. split; [reflexivity|].
  destruct (match w2 with Some i0 => Nat.eqb i0 i | None => false end),
           (match w1 with Some i0 => Nat.eqb i0 i | None => false end);
    simpl in H; inversion H; subst; simpl; auto.
Qed.



(** C3 (amended): at the last MD that records a Phase-1 value, [rih_tractor]
    is set to that value (connector 1); at the last MD that records a Phase-2
    value, [rih_standard_2] is set to that value exactly when the point right
    after it in the array carries a [rih_standard_2] reading, and stays null
    otherwise. *)
Theorem connectors_join_adjacent_segments (i : nat) (m : float)
  (Hm : nth_error (allMDs rihFile tractorFile poohFile) i = Some m) :
  handleStitch (mkFiles (Some rihFile) (Some tractorFile) poohFile)
    tractorDepth stopTractorDepth = Some out /\
  (records1' m = true ->
   (forall j m', (i < j)%nat -> nth_error mds j = Some m' -> records1' m' = false) ->
   exists q, nth_error out i = Some q /\
     rih_standard_1 q = rihOf (findNear rihFile m) /\
     rih_tractor q = rihOf (findNear rihFile m)) /\
  (records2' m = true ->
   (forall j m', (i < j)%nat -> nth_error mds j = Some m' -> records2' m' = false) ->
   exists q, nth_error out i = Some q /\
     rih_tractor q = rihOf (findNear tractorFile m) /\
     rih_standard_2 q =
       match nth_error out (i + 1) with
       | Some nextPoint =>
           if isNull (rih_standard_2 nextPoint) then None
           else rihOf (findNear tractorFile m)
       | None => None
       end).
Proof.
  split; [reflexivity|].
  fold mds in Hm.
  destruct (connectStandard1_spec stopDepth st (merged st) last1_index_range) as [w1 [C1 Hw1]].
  destruct (connectTractor_spec st (connectStandard1 stopDepth st (merged st))
              last2_index_range) as [w2 [C2 Hw2]].
  pose proof (pass_last1 rihFile tractorFile poohFile forceDepth stopDepth mds) as L1.
  pose proof (pass_last2 rihFile tractorFile poohFile forceDepth stopDepth mds) as L2.
  fold st in L1, L2.
  assert (Hpt : nth_error (merged st) i =
                Some (pointFor' (lastRihStandard1Value
                        (mainPass rihFile tractorFile poohFile forceDepth stopDepth
                           (firstn i mds))) m))
    by (apply pass_nth, Hm).
  assert (Hout : forall j, nth_error out j =
            if (match w2 with Some k => Nat.eqb k j | None => false end)
            then option_map (setStandard2 (lastRihTractorValue st))
                   (nth_error (connectStandard1 stopDepth st (merged st)) j)
            else nth_error (connectStandard1 stopDepth st (merged st)) j)
    by (intros j; unfold out, stitch; fold forceDepth stopDepth mds st;
        apply (Connected_nth _ _ _ _ j C2)).
  assert (Hc1 : forall j, nth_error (connectStandard1 stopDepth st (merged st)) j =
            if (match w1 with Some k => Nat.eqb k j | None => false end)
            then option_map (setTractor (lastRihStandard1Value st)) (nth_error (merged st) j)
            else nth_error (merged st) j)
    by (intros j; apply (Connected_nth _ _ _ _ j C1)).
  split.
  - (* connector 1 *)
    intros Hr Hlast.
    destruct (lastRecord_at _ _ _ _ i m L1 Hm Hr Hlast) as [Hidx Hval].
    assert (Hforce : (m <? forceDepth) = true).
    { unfold records1 in Hr. apply andb_true_iff in Hr. apply Hr. }
    assert (E1 : w1 = Some i).
    { apply Hw1. split; [exact Hidx|]. eexists. split; [exact Hpt|].
      rewrite pointFor_md. split; [apply below_force_below_stop, Hforce|].
      unfold pointFor. rewrite Hforce. reflexivity. }
    assert (E2 : w2 <> Some i).
    { intros ->. destruct (proj1 (Hw2 i) eq_refl) as [Hidx2 _].
      destruct (lastRecord_index _ _ _ _ i L2 Hidx2) as [m' [Hm' [Hr2 _]]].
      rewrite Hm in Hm'. inversion Hm'; subst m'.
      unfold records2 in Hr2. rewrite Hforce in Hr2. discriminate. }
    rewrite Hout, Hc1, E1, Nat.eqb_refl, Hpt.
    replace (match w2 with Some k => Nat.eqb k i | None => false end) with false.
    2:{ destruct w2 as [k|]; [|reflexivity]. symmetry. apply Nat.eqb_neq. congruence. }
    eexists. split; [reflexivity|]. unfold pointFor. rewrite Hforce. simpl.
    split; [reflexivity | exact Hval].
  - (* connector 2 *)
    intros Hr Hlast.
    destruct (lastRecord_at _ _ _ _ i m L2 Hm Hr Hlast) as [Hidx Hval].
    unfold records2 in Hr. apply andb_true_iff in Hr. destruct Hr as [Hr _].
    apply andb_true_iff in Hr. destruct Hr as [Hforce Hphase].
    apply negb_true_iff in Hforce.
    assert (E1 : w1 <> Some i).
    { intros ->. destruct (proj1 (Hw1 i) eq_refl) as [Hidx1 _].
      destruct (lastRecord_index _ _ _ _ i L1 Hidx1) as [m' [Hm' [Hr1 _]]].
      rewrite Hm in Hm'. inversion Hm'; subst m'.
      unfold records1 in Hr1. rewrite Hforce in Hr1. discriminate. }
    assert (Hc1i : nth_error (connectStandard1 stopDepth st (merged st)) i =
                   Some (mkPoint m None None (rihOf (findNear tractorFile m))
                           (poohAt poohFile m (findNear rihFile m) (findNear tractorFile m)))).
    { rewrite Hc1.
      replace (match w1 with Some k => Nat.eqb k i | None => false end) with false.
      2:{ destruct w1 as [k|]; [|reflexivity]. symmetry. apply Nat.eqb_neq. congruence. }
      rewrite Hpt. unfold pointFor. rewrite Hforce, Hphase. reflexivity. }
    assert (Hnext : nth_error out (i + 1) =
                    nth_error (connectStandard1 stopDepth st (merged st)) (i + 1)).
    { rewrite Hout.
      replace (match w2 with Some k => Nat.eqb k (i + 1) | None => false end) with false;
        [reflexivity|].
      destruct w2 as [k|]; [|reflexivity]. symmetry. apply Nat.eqb_neq.
      intros ->. destruct (proj1 (Hw2 (i + 1)%nat) eq_refl) as [Hk _]. lia. }
    rewrite Hnext, (Hout i), Hc1i.
    destruct (nth_error (connectStandard1 stopDepth st (merged st)) (i + 1))
      as [nextPoint|] eqn:En.
    + destruct (rih_standard_2 nextPoint) as [v|] eqn:Ev.
      * assert (E2 : w2 = Some i).
        { apply Hw2. split; [exact Hidx|]. do 2 eexists.
          split; [exact Hc1i|]. split; [exact En|]. split; [rewrite Ev; discriminate|].
          reflexivity. }
        rewrite E2, Nat.eqb_refl. simpl. eexists. split; [reflexivity|].
        split; [reflexivity | exact Hval].
      * replace (match w2 with Some k => Nat.eqb k i | None => false end) with false.
        2:{ destruct w2 as [k|] eqn:E2; [|reflexivity]. symmetry. apply Nat.eqb_neq.
            intros ->. destruct (proj1 (Hw2 i) eq_refl) as [_ [pt [nx [_ [Hnx [Hne _]]]]]].
            rewrite En in Hnx. inversion Hnx; subst. congruence. }
        simpl. eexists. split; [reflexivity|]. split; reflexivity.
    + replace (match w2 with Some k => Nat.eqb k i | None => false end) with false.
      2:{ destruct w2 as [k|] eqn:E2; [|reflexivity]. symmetry. apply Nat.eqb_neq.
          intros ->. destruct (proj1 (Hw2 i) eq_refl) as [_ [pt [nx [_ [Hnx _]]]]].
          rewrite En in Hnx. discriminate. }
      eexists. split; [reflexivity|]. split; reflexivity.
Qed.

End StitchTheorems.

(** C4: without a tractor file [handleStitch] stitches nothing, and the chart
    shows the rih series point for point in [rih_standard_1], with
    [rih_tractor] and [rih_standard_2] null; POOH is the override file's
    sample within 0.5 (null when there is none) if an override file is
    present, and the rih sample's own POOH otherwise. *)
Theorem no_tractor_shows_rih_only (rihFile : list SimulationSample)
  (poohFile : option (list SimulationSample)) (tractorDepth stopTractorDepth : float) :
  let files := mkFiles (Some rihFile) None poohFile in
  handleStitch files tractorDepth stopTractorDepth = None /\
  length (autoDisplay files) = length rihFile /\
  forall i, nth_error (autoDisplay files) i =
    match nth_error rihFile i with
    | Some s =>
        Some (mkPoint (md s) (rih s) None None
                (match poohFile with
                 | Some override =>
                     match findNear override (md s) with
                     | Some poohPoint => pooh poohPoint
                     | None => None
                     end
                 | None => pooh s
                 end))
    | None => None
    end.
Proof.
  intros files. split; [reflexivity|].
  unfold autoDisplay, files. simpl f_rih. simpl f_pooh.
  destruct poohFile as [override|].
  - rewrite map_map. split; [apply length_map|].
    intros i. rewrite nth_error_map. destruct (nth_error rihFile i); reflexivity.
  - split; [apply length_map|].
    intros i. rewrite nth_error_map. destruct (nth_error rihFile i); reflexivity.
Qed.

(** *** A run: rih from 0 to 1000, tractor from 500 to 1500 *)

Definition rihExample : list SimulationSample :=
  [mkSample 0 (Some 1) None; mkSample 400 (Some 2) None;
   mkSample 800 (Some 3) None; mkSample 1000 (Some 4) None].

Definition tractorExample : list SimulationSample :=
  [mkSample 500 (Some 7) None; mkSample 900 (Some 8) None;
   mkSample 1300 (Some 9) None; mkSample 1500 (Some 10) None].

(** A second run, whose rih file has a row without RIH value at MD 400 and
    resumes at MD 1500. *)
Definition rihGap : list SimulationSample :=
  [mkSample 0 (Some 1) None; mkSample 400 None None; mkSample 1500 (Some 5) None].

Definition tractorShort : list SimulationSample :=
  [mkSample 500 (Some 7) None; mkSample 900 (Some 8) None; mkSample 1300 (Some 9) None].

(** Both runs are stitched with force depth 500 and stop depth 1200.

    In the second run the MDs are 0, 400, 500, 900, 1300, 1500.  The last
    Phase-2 point is MD 900 (index 3), with value 8.  A Phase-3 segment follows
    it at once (MD 1300 and 1500 lie at or above the stop depth), and
    [rih_standard_2] has a reading after it, 5 at MD 1500.  Yet
    [rih_standard_2] at MD 900 stays null: the point right after it, MD 1300,
    has no rih sample nearby and no Phase-1 value to extend.

    In the first run the MDs are 0, 400, 500, 800, 900, 1000, 1300, 1500.  The
    last Phase-2 value, 8, is recorded at MD 900 (index 4); the Phase-3 points at
    1300 and 1500 carry [rih_standard_2] readings; [rih_standard_2] at MD 900
    stays null, because the point right after it (MD 1000, a rih sample in
    Phase 2 without a tractor sample nearby) has none. *)
Lemma connector2_ignores_later_readings :
  (exists p3 p4 p5,
     skipn 3 (stitch rihGap tractorShort None 500 1200) = [p3; p4; p5] /\
     p_md p3 = 900 /\ rih_tractor p3 = Some 8 /\
     p_md p4 = 1300 /\ (effectiveStopDepth 1200 500 <=? p_md p4) = true /\
     rih_tractor p4 = None /\ rih_standard_2 p4 = None /\
     p_md p5 = 1500 /\ rih_tractor p5 = None /\ rih_standard_2 p5 = Some 5 /\
     rih_standard_2 p3 = None) /\
  (exists p4 p5 p6 p7,
     skipn 4 (stitch rihExample tractorExample None 500 1200) = [p4; p5; p6; p7] /\
     p_md p4 = 900 /\ rih_tractor p4 = Some 8 /\
     p_md p5 = 1000 /\ rih_tractor p5 = None /\
     p_md p6 = 1300 /\ rih_tractor p6 = None /\ rih_standard_2 p6 = Some 2 /\
     p_md p7 = 1500 /\ rih_tractor p7 = None /\ rih_standard_2 p7 = Some 2 /\
     rih_standard_2 p4 = None).
Proof. split; do 4 try eexists; vm_compute; repeat split. Qed.



Lemma connectors_join_adjacent_segments_witness :
  nth_error (allMDs rihExample tractorExample None) 1 = Some 400 /\
  exists q, nth_error (stitch rihExample tractorExample None 500 1200) 1 = Some q /\
    rih_standard_1 q = Some 2 /\ rih_tractor q = Some 2.
Proof.
  split; [reflexivity|].
  destruct (connectors_join_adjacent_segments rihExample tractorExample None 500 1200
              1 400 eq_refl) as [_ [H _]].
  apply H; [reflexivity|].
  intros j m' Hj Hm'.
  do 2 (destruct j as [|j]; [lia|]).
  do 6 (destruct j as [|j]; [inversion Hm'; reflexivity|]).
  destruct j; discriminate Hm'.
Defined.

End Stitch.

(** ** Text: strings, [parseFloat] and [toFixed] *)

From Stdlib Require Import Ascii String.

Module Text.

Import Js.
Local Open Scope char_scope.
Local Open Scope Z_scope.

(** A JavaScript string, as the list of its characters. *)
Definition chars (s : string) : list ascii := list_ascii_of_string s.

Definition tab : ascii := "009".
Definition quote : ascii := "034".

(** WhiteSpace and LineTerminator below code 256: what [trim], [\s] and
    [parseFloat] skip. *)
Definition isWhiteSpace (c : ascii) : bool :=
  match nat_of_ascii c with
  | 9%nat | 10%nat | 11%nat | 12%nat | 13%nat | 32%nat | 160%nat => true
  | _ => false
  end.

Fixpoint trimStart (s : list ascii) : list ascii :=
  match s with
  | c :: s' => if isWhiteSpace c then trimStart s' else s
  | [] => []
  end.

(** [s.trim()] *)
Definition trim (s : list ascii) : list ascii := rev (trimStart (rev (trimStart s))).

Fixpoint isPrefix (p s : list ascii) : bool :=
  match p, s with
  | [], _ => true
  | a :: p', b :: s' => Ascii.eqb a b && isPrefix p' s'
  | _ :: _, [] => false
  end.

(** [s.split(sep)] for a non-empty string [sep]: [cur] holds the current
    piece reversed, [skip] the characters of a separator still to pass. *)
Fixpoint splitLoop (sep s cur : list ascii) (skip : nat) : list (list ascii) :=
  match s with
  | [] => [rev cur]
  | c :: s' =>
      match skip with
      | S k => splitLoop sep s' cur k
      | O =>
          if isPrefix sep s then rev cur :: splitLoop sep s' [] (List.length sep - 1)
          else splitLoop sep s' (c :: cur) O
      end
  end.

(** [s.split(sep)]; with the empty separator, the characters of [s]. *)
Definition split (sep s : list ascii) : list (list ascii) :=
  match sep with
  | [] => map (fun c => [c]) s
  | _ => splitLoop sep s [] O
  end.

(** [s.split(/[...]+/)] for the character class [cls]: pieces between maximal
    runs of characters of the class. *)
Fixpoint splitRuns (cls : ascii -> bool) (s cur : list ascii) (inRun : bool)
  : list (list ascii) :=
  match s with
  | [] => [rev cur]
  | c :: s' =>
      if cls c then
        if inRun then splitRuns cls s' cur true
        else rev cur :: splitRuns cls s' [] true
      else splitRuns cls s' (c :: cur) false
  end.

(** [s.replace(/c/g, '')] for a class of characters. *)
Definition removeAll (cls : ascii -> bool) (s : list ascii) : list ascii :=
  filter (fun c => negb (cls c)) s.

(** [s.replace(a, b)] for single characters: the first [a] becomes [b]. *)
Fixpoint replaceFirst (a b : ascii) (s : list ascii) : list ascii :=
  match s with
  | [] => []
  | c :: s' => if Ascii.eqb c a then b :: s' else c :: replaceFirst a b s'
  end.

(** [s.replace(/^"|"$/g, '')]: a leading quote goes, and a trailing quote of
    what follows it. *)
Definition stripQuotes (s : list ascii) : list ascii :=
  let s1 := match s with c :: s' => if Ascii.eqb c quote then s' else s | [] => [] end in
  match rev s1 with
  | c :: r => if Ascii.eqb c quote then rev r else s1
  | [] => s1
  end.

(** The nearest binary64 number to [num / den] (ties to even), for
    [num >= 0] and [den > 0]: the quotient of the specification with both
    operands exact. *)
Definition nearest (neg : bool) (num den : Z) : float :=
  match num with
  | Zpos n =>
      SF2Prim (SFdiv prec emax (S754_finite neg n 0) (S754_finite false (Z.to_pos den) 0))
  | _ => if neg then neg_zero else PrimFloat.zero
  end.

Definition digit (c : ascii) : option Z :=
  let n := nat_of_ascii c in
  if (48 <=? n)%nat && (n <=? 57)%nat then Some (Z.of_nat (n - 48)) else None.

(** The longest run of decimal digits at the head of [s]: its value, its
    length and the rest. *)
Fixpoint digits (s : list ascii) (acc : Z) (count : nat) : Z * nat * list ascii :=
  match s with
  | c :: s' =>
      match digit c with
      | Some d => digits s' (10 * acc + d) (S count)
      | None => (acc, count, s)
      end
  | [] => (acc, count, [])
  end.

Definition signOf (s : list ascii) : bool * list ascii :=
  match s with
  | "-" :: s' => (true, s')
  | "+" :: s' => (false, s')
  | _ => (false, s)
  end.

(** ExponentPart: [e] or [E], an optional sign and at least one digit; an
    incomplete exponent is not part of the numeral. *)
Definition exponentPart (s : list ascii) : Z :=
  match s with
  | c :: s' =>
      if Ascii.eqb c "e" || Ascii.eqb c "E" then
        let '(neg, s1) := signOf s' in
        let '(v, n, _) := digits s1 0 O in
        match n with O => 0 | _ => if neg then - v else v end
      else 0
  | [] => 0
  end.

(** [parseFloat(s)]: leading white space is skipped and the longest prefix that
    is a StrDecimalLiteral is read; NaN when there is none. *)
Definition parseFloat (s : list ascii) : float :=
  let '(neg, s1) := signOf (trimStart s) in
  if isPrefix (chars "Infinity") s1 then (if neg then neg_infinity else infinity)
  else
    let '(ip, ni, s2) := digits s1 0 O in
    let '(m, nf, s3) :=
      match s2 with
      | "." :: r => digits r ip O
      | _ => (ip, O, s2)
      end in
    match ni, nf with
    | O, O => nan
    | _, _ =>
        let e := exponentPart s3 - Z.of_nat nf in
        match e with
        | Zneg k => nearest neg m (10 ^ Zpos k)
        | _ => nearest neg (m * 10 ^ e) 1
        end
    end.

(** [parseFloat(x.toFixed(d))] for a number [x] and [0 <= d <= 100]:
    [toFixed] picks the integer [n] with [n / 10^d] nearest to [|x|], the
    larger one on a tie, and prints it with the sign of a negative [x];
    from [1e21] on it prints [x] itself. *)
Definition toFixedNum (d : nat) (x : float) : float :=
  match Prim2SF x with
  | S754_nan => nan
  | S754_infinity _ => x
  | S754_zero _ => PrimFloat.zero
  | S754_finite s m e =>
      if (1e21 <=? abs x)%float then x
      else
        let p := 10 ^ Z.of_nat d in
        let n := match e with
                 | Zneg k => (2 * Zpos m * p + 2 ^ Zpos k) / 2 ^ (Zpos k + 1)
                 | _ => Zpos m * 2 ^ e * p
                 end in
        nearest s n p
  end.

End Text.

(** ** [parseSurveyData] (App.jsx, lines 299-335) *)

Module Survey.

Import Js Text.
Local Open Scope string_scope.

Record Config := mkConfig {
  startLine : Z;
  delimiter : string;
  colMD : Z;
  colInc : Z;
  colAzi : Z;
  unitMultiplier : float;
  thousandSep : string
}.

Record SurveyStation := mkStation {
  md : float;
  inc : float;
  azi : float
}.

(** The class [[\t,; ]] of the [auto] delimiter. *)
Definition autoClass (c : ascii) : bool :=
  Ascii.eqb c tab || Ascii.eqb c "," || Ascii.eqb c ";" || Ascii.eqb c " ".

(** [parts]: the line split by the configured delimiter. *)
Definition partsOf (delimiter : string) (line : list ascii) : list (list ascii) :=
  if String.eqb delimiter "auto" then splitRuns autoClass line [] false
  else if String.eqb delimiter "tab" then split [tab] line
  else if String.eqb delimiter "," then split (chars ",") line
  else split (chars delimiter) line.

(** [parts[col - 1]]: [None] is [undefined]. *)
Definition column (parts : list (list ascii)) (col : Z) : option (list ascii) :=
  if (col - 1 <? 0)%Z then None else nth_error parts (Z.to_nat (col - 1)).

(** The token after the quotes, the thousands separator and the decimal comma
    are dealt with. *)
Definition cleanToken (thousandSep : string) (str : list ascii) : list ascii :=
  let s := stripQuotes str in
  let s :=
    if String.eqb thousandSep "space" then removeAll isWhiteSpace s
    else if String.eqb thousandSep "." then removeAll (Ascii.eqb ".") s
    else if String.eqb thousandSep "," then removeAll (Ascii.eqb ",") s
    else s in
  if negb (String.eqb thousandSep ",") then replaceFirst "," "." s else s.

(** [cleanFloat(str)] *)
Definition cleanFloat (thousandSep : string) (str : option (list ascii)) : float :=
  match str with
  | None | Some [] => 0
  | Some s =>
      let val := parseFloat (cleanToken thousandSep s) in
      if isNaN val then 0 else val
  end.

(** The body of the loop on one line: the station it pushes, if any. *)
Definition parseLine (config : Config) (rawLine : list ascii) : list SurveyStation :=
  match trim rawLine with
  | [] => []
  | line =>
      let parts := partsOf (delimiter config) line in
      match column parts (colMD config), column parts (colInc config) with
      | Some rawMD, Some rawInc =>
          let md := (cleanFloat (thousandSep config) (Some rawMD) * unitMultiplier config)%float in
          let inc := cleanFloat (thousandSep config) (Some rawInc) in
          let azi := cleanFloat (thousandSep config) (column parts (colAzi config)) in
          if negb (isNaN md) && (0 <=? md)%float
          then [mkStation (toFixedNum 2 md) inc azi]
          else []
      | _, _ => []
      end
  end.

Definition newline : ascii := "010"%char.

Definition parseSurveyData (text : string) (config : Config) : list SurveyStation :=
  match chars text with
  | [] => []
  | t =>
      let lines := split [newline] t in
      let effectiveStartLine := Z.max 1 (startLine config) in
      flat_map (parseLine config) (skipn (Z.to_nat (effectiveStartLine - 1)) lines)
  end.

(** The survey configuration [CreateWellWizard] starts with. *)
Definition wizardConfig : Config := mkConfig 1 "auto" 1 2 3 1 ".".







End Survey.

(** ** The pressure profile ([pressureData] of [StepFluids], App.jsx lines 1111-1133) *)

Module Pressure.

Import Js Text.
Local Open Scope float_scope.

(** A form field holds a number or the text typed into it. *)
Inductive Field := Num (x : float) | Txt (s : string).

(** [parseFloat(v || 0)] *)
Definition parseFloatOrZero (v : Field) : float :=
  match v with
  | Num x => orElse x 0
  | Txt s => match chars s with [] => 0 | cs => parseFloat cs end
  end.

Record FluidLayer := mkLayer {
  type : string;
  sg : float;
  percent : float
}.

(** [{ ...f, startTVD, endTVD }] *)
Record FluidSection := mkSection {
  layer : FluidLayer;
  startTVD : float;
  endTVD : float
}.

Record PressurePoint := mkPressure {
  md : float;
  pressure : float
}.

(** [data.list.map(f => ...)], with [currentTVD] running along. *)
Fixpoint fluidSections (maxTVD : float) (fluidList : list FluidLayer) (currentTVD : float)
  : list FluidSection :=
  match fluidList with
  | [] => []
  | f :: rest =>
      let height := (parseFloatOrZero (Num (percent f)) / 100) * maxTVD in
      mkSection f currentTVD (currentTVD + height)
        :: fluidSections maxTVD rest (currentTVD + height)
  end.

(** The inner loop: [p] after the sections [fs], at depth [tvd]. *)
Fixpoint accumulate (tvd : float) (fs : list FluidSection) (p : float) : float :=
  match fs with
  | [] => p
  | f :: rest =>
      if endTVD f <? tvd
      then accumulate tvd rest (p + (endTVD f - startTVD f) * sg (layer f) * 0.0981)
      else if startTVD f <? tvd
           then accumulate tvd rest (p + (tvd - startTVD f) * sg (layer f) * 0.0981)
           else accumulate tvd rest p
  end.

Section Profile.
Variable whpField : Field.
Variable fluidList : list FluidLayer.
Variables maxMD maxTVD : float.
Variable getTVD : float -> float.

Definition depthStep : float := maxMD / 50.
Definition whp : float := parseFloatOrZero whpField.

(** The point pushed at [m]. *)
Definition pointAt (m : float) : PressurePoint :=
  mkPressure (toFixedNum 0 m)
             (toFixedNum 1 (accumulate (getTVD m) (fluidSections maxTVD fluidList 0) whp)).

(** [for (let md = ...; md <= maxMD; md += depthStep)] from [m] on, for at
    most [fuel] tests of the condition: [None] while the loop has not ended. *)
Fixpoint profileFrom (fuel : nat) (m : float) : option (list PressurePoint) :=
  match fuel with
  | O => None
  | S fuel' =>
      if m <=? maxMD then
        match profileFrom fuel' (m + depthStep) with
        | Some points => Some (pointAt m :: points)
        | None => None
        end
      else Some []
  end.

Definition pressureData (fuel : nat) : option (list PressurePoint) := profileFrom fuel 0.

(** *** The profile in the words of the specification *)









End Profile.

(** *** A vertical well of 1000 m filled with water *)

Definition water : FluidLayer := mkLayer "Vann" 1.0 100.



(** Repeated addition of [maxMD / 50] can pass [maxMD] before the fiftieth
    step: for [maxMD = 1857] the loop ends after 50 samples, the last one at
    MD 1820 (rounded), and no sample is taken at 1857. *)
Lemma profile_can_stop_short :
  exists points,
    pressureData (Num 0) [water] 1857 1857 (fun m => m) 60 = Some points /\
    List.length points = 50%nat /\
    option_map md (nth_error points 49) = Some 1820.
Proof. eexists. vm_compute. repeat split. Qed.

(** With [maxMD = 0] the step is 0, the counter stays at 0 and the loop does
    not end: no amount of fuel yields a profile. *)
Lemma profile_never_ends_at_zero (whpField : Field) (fluidList : list FluidLayer)
  (maxTVD : float) (getTVD : float -> float) (fuel : nat) :
  pressureData whpField fluidList 0 maxTVD getTVD fuel = None.
Proof.
  unfold pressureData. induction fuel as [|fuel IH]; [reflexivity|].
  cbn [profileFrom]. change (0 <=? 0) with true. cbv iota.
  change (0 + depthStep 0) with 0. rewrite IH. reflexivity.
Qed.



End Pressure.

(** ** [calculateIDFromODWeight] (App.jsx, lines 96-107) *)

Module Casing.

Import Js Text FloatOrder FloatSub.
Local Open Scope string_scope.
Local Open Scope float_scope.

Definition odInch (od : float) (unitOD : string) : float :=
  if String.eqb unitOD "in" then od else od / 2.54.

Definition wLbFt (weight : float) (unitWeight : string) : float :=
  if String.eqb unitWeight "lb/ft" then weight else weight * 0.671969.

(** [idSq], the radicand. *)
Definition idSq (od weight : float) (unitOD unitWeight : string) : float :=
  (odInch od unitOD * odInch od unitOD) - (wLbFt weight unitWeight / 2.67).

(** [result], the root in the requested unit, before rounding. *)
Definition idInUnit (od weight : float) (unitOD unitWeight unitID : string) : float :=
  let idInch := Math_sqrt (idSq od weight unitOD unitWeight) in
  if String.eqb unitID "in" then idInch else idInch * 2.54.

(** An argument is [None] when it is [undefined] or [null]. *)
Definition calculateIDFromODWeight (od weight : option float)
  (unitOD unitWeight unitID : string) : option float :=
  match od, weight with
  | Some od, Some weight =>
      if negb (truthy od) || negb (truthy weight) || (od <=? 0) || (weight <=? 0) then None
      else if 0 <? idSq od weight unitOD unitWeight
           then Some (toFixedNum 3 (idInUnit od weight unitOD unitWeight unitID))
           else None
  | _, _ => None
  end.

(** A number fails the test [x > 0] when it is at most 0 or NaN. *)
Lemma not_positive (x : float) :
  (0 <? x) = false <-> (x <=? 0) = true \/ isNaN x = true.
Proof.
  unfold isNaN.
  rewrite ltb_spec, leb_spec, FloatAxioms.eqb_spec. change (Prim2SF 0) with (S754_zero false).
  unfold SFltb, SFleb, SFeqb, SFcompare.
  destruct (Prim2SF x) as [[]|[]| |[] m e]; simpl;
    rewrite ?Z.compare_refl; simpl;
    try change (Pos.compare_cont Eq m m) with (Pos.compare m m);
    rewrite ?Pos.compare_refl; simpl; split; intros H; auto; try discriminate;
    destruct H; discriminate.
Qed.

(** [!x || x <= 0] is the negation of [x > 0]. *)
Lemma falsy_or_nonpositive (x : float) :
  negb (truthy x) || (x <=? 0) = negb (0 <? x).
Proof.
  unfold truthy, isNaN. rewrite negb_involutive.
  rewrite ltb_spec, leb_spec, !FloatAxioms.eqb_spec. change (Prim2SF 0) with (S754_zero false).
  unfold SFltb, SFleb, SFeqb, SFcompare.
  destruct (Prim2SF x) as [[]|[]| |[] m e]; simpl;
    rewrite ?Z.compare_refl; simpl;
    try change (Pos.compare_cont Eq m m) with (Pos.compare m m);
    rewrite ?Pos.compare_refl; simpl; reflexivity.
Qed.

Lemma guard_positive (od weight : float) :
  negb (truthy od) || negb (truthy weight) || (od <=? 0) || (weight <=? 0)
  = negb (0 <? od) || negb (0 <? weight).
Proof.
  rewrite <- !falsy_or_nonpositive.
  destruct (truthy od), (truthy weight), (od <=? 0), (weight <=? 0); reflexivity.
Qed.

(** The integer square root taken by [SFsqrt] is positive, at an exponent
    within range. *)
Lemma sqrt_core_pos (m : positive) (e : Z) :
  (emin64 <= e)%Z ->
  let '(q, e', l) := SFsqrt_core_binary prec emax (Zpos m) e in
  (0 < q)%Z /\ (emin64 <= e')%Z.
Proof.
  intros He. unfold SFsqrt_core_binary.
  set (d := Zdigits2 (Zpos m)).
  set (e' := Z.min (fexp prec emax (Z.div2 (d + e + 1))) (Z.div2 e)).
  assert (He' : (emin64 <= e' /\ 2 * e' <= e)%Z).
  { pose proof (fexp_ge_emin (Z.div2 (d + e + 1))).
    pose proof (Zdiv2_odd_eqn e) as Hd. unfold emin64 in *.
    destruct (Z.odd e); unfold e'; lia. }
  destruct He' as [He1 He2].
  set (s := (e - 2 * e')%Z).
  assert (Hs : (0 <= s)%Z) by (unfold s; lia).
  set (m' := match s with Zpos _ => Z.shiftl (Zpos m) s | 0%Z => Zpos m | Zneg _ => 0%Z end).
  assert (Hm' : (1 <= m')%Z).
  { unfold m'. destruct s as [|p|p] eqn:Es; try lia.
    rewrite Z.shiftl_mul_pow2 by lia.
    pose proof (Z.pow_pos_nonneg 2 (Zpos p) ltac:(lia) ltac:(lia)). nia. }
  pose proof (Z.sqrtrem_spec m' ltac:(lia)) as Hq.
  destruct (Z.sqrtrem m') as [q r].
  split; [|exact He1].
  destruct Hq as [Hq Hr]. nia.
Qed.

(** The square root of a positive number is positive. *)
Lemma sqrt_positive (x : float) : (0 <? x) = true -> (0 <? Math_sqrt x) = true.
Proof.
  unfold Math_sqrt. rewrite !ltb_spec, sqrt_spec.
  change (Prim2SF 0) with (S754_zero false).
  pose proof (Prim2SF_valid x) as V.
  destruct (Prim2SF x) as [[]|[]| |[] m e]; try discriminate; try reflexivity.
  intros _. unfold SF64sqrt, SFsqrt.
  apply valid_finite in V. destruct V as [He _].
  pose proof (sqrt_core_pos m e He) as H.
  destruct (SFsqrt_core_binary prec emax (Zpos m) e) as [[q e'] l].
  destruct H as [Hq He'].
  destruct (binary_round_aux_signed false q e' l Hq He') as [->|[m' [e'' ->]]]; reflexivity.
Qed.

(** An outer diameter of 10 with a weight of 0.001, in inches and lb/ft or
    in centimetres and kg/m: the root, about 9.99998, is printed as 10.000,
    and the returned inner diameter is the outer diameter. *)
Lemma rounding_reaches_od :
  calculateIDFromODWeight (Some 10) (Some 0.001) "in" "lb/ft" "in" = Some 10 /\
  calculateIDFromODWeight (Some 10) (Some 0.001) "cm" "kg/m" "cm" = Some 10 /\
  (10 <? 10) = false.
Proof. vm_compute. repeat split. Qed.

(** C8 (amended): [calculateIDFromODWeight] returns null exactly when an
    input is missing, not a number or at most 0, or the radicand
    [odInch^2 - weightLbFt / 2.67] after unit conversion (cm to in: divided by
    2.54; kg/m to lb/ft: times 0.671969) is at most 0 or not a number;
    otherwise the radicand has a positive square root and the function
    returns that root, converted to the requested unit and rounded to 3
    decimals: 6.176 for a 7 in casing of 29 lb/ft, 9.152 for 10 cm and
    10 kg/m with the ID in cm, null for 1 cm and 1000 kg/m, and 10, the
    outer diameter itself, for 10 in and 0.001 lb/ft. *)
Theorem casing_id_is_rounded_root (od weight : option float)
  (unitOD unitWeight unitID : string) :
  (calculateIDFromODWeight od weight unitOD unitWeight unitID = None <->
     match od, weight with
     | Some o, Some w =>
         ((o <=? 0) = true \/ isNaN o = true) \/
         ((w <=? 0) = true \/ isNaN w = true) \/
         ((idSq o w unitOD unitWeight <=? 0) = true \/
          isNaN (idSq o w unitOD unitWeight) = true)
     | _, _ => True
     end) /\
  (forall v, calculateIDFromODWeight od weight unitOD unitWeight unitID = Some v ->
     exists o w, od = Some o /\ weight = Some w /\
       (0 <? o) = true /\ (0 <? w) = true /\
       (0 <? idSq o w unitOD unitWeight) = true /\
       (0 <? Math_sqrt (idSq o w unitOD unitWeight)) = true /\
       v = toFixedNum 3
             (if String.eqb unitID "in" then Math_sqrt (idSq o w unitOD unitWeight)
              else Math_sqrt (idSq o w unitOD unitWeight) * 2.54)) /\
  calculateIDFromODWeight (Some 7) (Some 29) "in" "lb/ft" "in" = Some 6.176 /\
  calculateIDFromODWeight (Some 10) (Some 10) "cm" "kg/m" "cm" = Some 9.152 /\
  calculateIDFromODWeight (Some 1) (Some 1000) "cm" "kg/m" "cm" = None /\
  calculateIDFromODWeight (Some 10) (Some 0.001) "in" "lb/ft" "in" = Some 10.
Proof.
  split; [|split; [|vm_compute; repeat split]].
  - unfold calculateIDFromODWeight.
    destruct od as [o|], weight as [w|]; try (split; auto; fail).
    rewrite <- !not_positive, guard_positive.
    destruct (0 <? o), (0 <? w), (0 <? idSq o w unitOD unitWeight); simpl;
      split; intros H; auto; try discriminate;
      destruct H as [H|[H|H]]; discriminate.
  - intros v. unfold calculateIDFromODWeight.
    destruct od as [o|], weight as [w|]; try discriminate.
    rewrite guard_positive.
    destruct (0 <? o) eqn:Eo; [|discriminate].
    destruct (0 <? w) eqn:Ew; [|discriminate]. simpl.
    destruct (0 <? idSq o w unitOD unitWeight) eqn:Es; [|discriminate].
    intros H. inversion H; subst. exists o, w.
    repeat split; auto. apply sqrt_positive, Es.
Qed.

(** The theorem for a 7 in casing of 29 lb/ft. *)
Lemma casing_id_is_rounded_root_witness :
  exists o w,
    (0 <? idSq o w "in" "lb/ft") = true /\
    (0 <? Math_sqrt (idSq o w "in" "lb/ft")) = true /\
    6.176 = toFixedNum 3 (Math_sqrt (idSq o w "in" "lb/ft")).
Proof.
  destruct (proj1 (proj2 (casing_id_is_rounded_root (Some 7) (Some 29) "in" "lb/ft" "in"))
              6.176 eq_refl) as [o [w [_ [_ [_ [_ [Hs [Hr Hv]]]]]]]].
  exists o, w. split; [exact Hs|]. split; [exact Hr | exact Hv].
Defined.

End Casing.

(** ** Sorting records by a numeric field *)

Module KeySort.

Import Js FloatOrder FloatSub.
Local Open Scope float_scope.

Section ByKey.
Context {A : Type}.
Variable key : A -> float.

(** The comparator [(a, b) => a.key - b.key]. *)
Definition byKey (a b : A) : float := key a - key b.

Definition keyIs (k : float) (a : A) : bool := key a =? k.

Definition keySorted (l : list A) : Prop :=
  StronglySorted (fun a b => (key a <=? key b) = true) l.

Definition numericKeys (l : list A) : Prop :=
  Forall (fun a => isNaN (key a) = false) l.

Lemma sort_insert_byKey (x y : A) (l : list A) :
  sort_insert byKey x (y :: l) =
    if key y <? key x then y :: sort_insert byKey x l else x :: y :: l.
Proof. simpl. unfold byKey. rewrite sub_pos_iff. reflexivity. Qed.

Lemma sort_insert_In (x a : A) (l : list A) :
  In a (sort_insert byKey x l) -> a = x \/ In a l.
Proof.
  induction l as [|y l IH]; simpl.
  - intros [H|[]]; auto.
  - destruct (0 <? byKey x y); simpl.
    + intros [H|H]; auto. destruct (IH H); auto.
    + intros [H|[H|H]]; auto.
Qed.

Lemma sort_insert_keySorted (x : A) (l : list A) :
  isNaN (key x) = false -> numericKeys l -> keySorted l ->
  keySorted (sort_insert byKey x l).
Proof.
  intros Hx Hl Hs. induction Hs as [|y l Hs IH Hy].
  - repeat constructor.
  - rewrite sort_insert_byKey. inversion Hl as [|? ? Hny Hl']; subst.
    destruct (key y <? key x) eqn:E.
    + constructor; [apply IH, Hl'|].
      apply Forall_forall. intros a Ha. apply sort_insert_In in Ha.
      destruct Ha as [->|Ha]; [apply ltb_leb, E|].
      rewrite Forall_forall in Hy. apply Hy, Ha.
    + assert (Hxy : (key x <=? key y) = true).
      { destruct (key x <=? key y) eqn:E'; [reflexivity|].
        rewrite (leb_total _ _ Hx Hny E') in E. discriminate. }
      constructor; [constructor; assumption|].
      constructor; [exact Hxy|].
      apply Forall_forall. intros a Ha. rewrite Forall_forall in Hy.
      apply leb_trans with (key y); [exact Hxy | apply Hy, Ha].
Qed.

Lemma numericKeys_perm (l l' : list A) :
  Permutation l l' -> numericKeys l -> numericKeys l'.
Proof. intros P H. unfold numericKeys. rewrite <- P. exact H. Qed.

(** With numeric keys the sort orders the records by key. *)
Lemma Array_sort_keySorted (l : list A) :
  numericKeys l -> keySorted (Array_sort byKey l).
Proof.
  induction l as [|x l IH]; intros H; [constructor|].
  inversion H; subst. simpl. apply sort_insert_keySorted; auto.
  eapply numericKeys_perm; [|eassumption].
  symmetry. apply SortFacts.Array_sort_perm.
Qed.

Lemma sort_insert_stable (k : float) (x : A) (l : list A) :
  filter (keyIs k) (sort_insert byKey x l) = filter (keyIs k) (x :: l).
Proof.
  induction l as [|y l IH]; [reflexivity|].
  rewrite sort_insert_byKey. destruct (key y <? key x) eqn:E; [|reflexivity].
  simpl filter at 1. rewrite IH. simpl. unfold keyIs.
  destruct (key x =? k) eqn:Ex, (key y =? k) eqn:Ey; try reflexivity.
  exfalso. revert E Ex Ey. generalize (key x) (key y). intros a b.
  by_spec a b k.
Qed.

(** The sort is stable: the records of one key keep their order. *)
Lemma Array_sort_stable (k : float) (l : list A) :
  filter (keyIs k) (Array_sort byKey l) = filter (keyIs k) l.
Proof.
  induction l as [|x l IH]; [reflexivity|].
  simpl Array_sort. rewrite sort_insert_stable. simpl. rewrite IH. reflexivity.
Qed.

End ByKey.

End KeySort.

(** ** [parseSimulationCSV] (App.jsx, lines 338-361) *)

Module SimulationFile.

Import Js FloatOrder Text Stitch KeySort.
Local Open Scope float_scope.

(** [/^\d/.test(s)] *)
Definition startsWithDigit (s : list ascii) : bool :=
  match s with
  | c :: _ => match digit c with Some _ => true | None => false end
  | [] => false
  end.

(** The first loop from line [i] on: the index of the first line that starts
    with a digit once trimmed. *)
Fixpoint firstDataLine (lines : list (list ascii)) (i : nat) : option nat :=
  match lines with
  | [] => None
  | line :: rest =>
      if startsWithDigit (trim line) then Some i else firstDataLine rest (S i)
  end.

(** [startIdx]: 1 unless one of the first [Math.min(10, lines.length)] lines
    starts with a digit. *)
Definition startIdx (lines : list (list ascii)) : nat :=
  match firstDataLine (firstn 10 lines) 0 with
  | Some i => i
  | None => 1
  end.

(** The class [[\t,;]] of the column separators. *)
Definition separator (c : ascii) : bool :=
  Ascii.eqb c tab || Ascii.eqb c "," || Ascii.eqb c ";".

(** [parseFloat(parts[i])]; a missing part is [undefined], which parses to NaN. *)
Definition parseFloatAt (parts : list (list ascii)) (i : nat) : float :=
  match nth_error parts i with
  | Some s => parseFloat s
  | None => nan
  end.

(** [isNaN(v) ? null : v] *)
Definition orNull (v : float) : option float := if isNaN v then None else Some v.

(** The body of the second loop on one line: the sample it pushes, if any. *)
Definition parseRow (rawLine : list ascii) : list SimulationSample :=
  match trim rawLine with
  | [] => []
  | line =>
      let parts := splitRuns separator line [] false in
      let md := parseFloatAt parts 0 in
      let rih := parseFloatAt parts 1 in
      let pooh := parseFloatAt parts 2 in
      if negb (isNaN md) then [mkSample md (orNull rih) (orNull pooh)] else []
  end.

(** [data], before it is sorted. *)
Definition dataRows (text : string) : list SimulationSample :=
  let lines := split [Survey.newline] (chars text) in
  flat_map parseRow (skipn (startIdx lines) lines).

Definition parseSimulationCSV (text : string) : list SimulationSample :=
  Array_sort (fun a b => md a - md b) (dataRows text).

(** *** What a parsed file holds *)

Definition numeric (v : option float) : Prop :=
  forall x, v = Some x -> isNaN x = false.

Lemma orNull_numeric (v : float) : numeric (orNull v).
Proof.
  unfold orNull, numeric. intros x. destruct (isNaN v) eqn:E; [discriminate|].
  intros H. inversion H; subst. exact E.
Qed.

Lemma parseRow_numbers (rawLine : list ascii) :
  Forall (fun s => isNaN (md s) = false /\ numeric (rih s) /\ numeric (pooh s))
    (parseRow rawLine).
Proof.
  unfold parseRow. destruct (trim rawLine) as [|c line]; [constructor|].
  set (parts := splitRuns separator (c :: line) [] false).
  destruct (isNaN (parseFloatAt parts 0)) eqn:E; simpl; constructor; [|constructor].
  simpl. split; [exact E|]. split; apply orNull_numeric.
Qed.

Lemma dataRows_numbers (text : string) :
  Forall (fun s => isNaN (md s) = false /\ numeric (rih s) /\ numeric (pooh s))
    (dataRows text).
Proof.
  unfold dataRows. apply Forall_flat_map, Forall_forall. intros l _. apply parseRow_numbers.
Qed.

Lemma dataRows_numericKeys (text : string) : numericKeys md (dataRows text).
Proof.
  eapply Forall_impl; [|apply dataRows_numbers]. intros s H. exact (proj1 H).
Qed.

Lemma parsed_md_numeric (text : string) :
  Forall (fun x => isNaN x = false) (map md (parseSimulationCSV text)).
Proof.
  apply Forall_map. unfold parseSimulationCSV.
  rewrite (SortFacts.Array_sort_perm (fun a b => md a - md b) (dataRows text)).
  apply dataRows_numericKeys.
Qed.

(** Every sample of a parsed file has a number as MD, and its RIH and
    POOH values are numbers or null, never NaN. *)
Theorem parsed_file_holds_numbers (text : string) :
  Forall (fun s => isNaN (md s) = false /\ numeric (rih s) /\ numeric (pooh s))
    (parseSimulationCSV text).
Proof.
  unfold parseSimulationCSV.
  rewrite (SortFacts.Array_sort_perm (fun a b => md a - md b) (dataRows text)).
  apply dataRows_numbers.
Qed.

(** The samples of a parsed file are the rows read, in ascending order of
    MD, rows of equal MD in the order of the file. *)
Theorem parsed_file_is_sorted (text : string) :
  keySorted md (parseSimulationCSV text) /\
  Permutation (parseSimulationCSV text) (dataRows text) /\
  forall k, filter (keyIs md k) (parseSimulationCSV text) = filter (keyIs md k) (dataRows text).
Proof.
  split; [|split].
  - apply (Array_sort_keySorted md), dataRows_numericKeys.
  - apply SortFacts.Array_sort_perm.
  - intros k. apply (Array_sort_stable md).
Qed.

(** *** The header rule *)

Lemma splitLoop_line (c : ascii) (s cur : list ascii) :
  splitLoop [Survey.newline] (c :: s) cur 0 =
    if Ascii.eqb Survey.newline c
    then rev cur :: splitLoop [Survey.newline] s [] 0
    else splitLoop [Survey.newline] s (c :: cur) 0.
Proof.
  cbn [splitLoop].
  replace (isPrefix [Survey.newline] (c :: s)) with (Ascii.eqb Survey.newline c)
    by (cbn [isPrefix]; rewrite andb_true_r; reflexivity).
  reflexivity.
Qed.

Lemma split_first_line (l0 rest : list ascii) :
  ~ In Survey.newline l0 ->
  split [Survey.newline] (l0 ++ Survey.newline :: rest) = l0 :: split [Survey.newline] rest.
Proof.
  intros Hn. unfold split.
  assert (G : forall cur, ~ In Survey.newline l0 ->
            splitLoop [Survey.newline] (l0 ++ Survey.newline :: rest) cur 0 =
            (rev cur ++ l0) :: splitLoop [Survey.newline] rest [] 0).
  { clear Hn. induction l0 as [|c l0 IH]; intros cur Hn.
    - rewrite app_nil_r. cbn [app]. rewrite splitLoop_line, Ascii.eqb_refl. reflexivity.
    - cbn [app]. rewrite splitLoop_line.
      destruct (Ascii.eqb_spec Survey.newline c) as [E|Hc].
      + exfalso. apply Hn. left. symmetry. exact E.
      + rewrite IH by (intros H; apply Hn; right; exact H).
        cbn [rev]. rewrite <- app_assoc. reflexivity. }
  rewrite (G [] Hn). reflexivity.
Qed.

Lemma firstDataLine_shift (lines : list (list ascii)) (i : nat) :
  firstDataLine lines (S i) = option_map S (firstDataLine lines i).
Proof.
  revert i. induction lines as [|l lines IH]; intros i; simpl; [reflexivity|].
  destruct (startsWithDigit (trim l)); [reflexivity | apply IH].
Qed.

Lemma firstDataLine_range (lines : list (list ascii)) (i k : nat) :
  firstDataLine lines i = Some k -> (i <= k)%nat.
Proof.
  revert i. induction lines as [|l lines IH]; intros i; simpl; [discriminate|].
  destruct (startsWithDigit (trim l)).
  - intros H. inversion H. lia.
  - intros H. apply IH in H. lia.
Qed.

(** When the first line does not start with a digit, the start index is at
    least 1 and does not depend on that line. *)
Lemma startIdx_header (l0 l0' : list ascii) (lines : list (list ascii)) :
  startsWithDigit (trim l0) = false -> startsWithDigit (trim l0') = false ->
  startIdx (l0 :: lines) = startIdx (l0' :: lines) /\ (1 <= startIdx (l0 :: lines))%nat.
Proof.
  intros H H'.
  assert (E : forall l, startsWithDigit (trim l) = false ->
            startIdx (l :: lines) =
            match firstDataLine (firstn 9 lines) 1 with Some i => i | None => 1%nat end).
  { intros l Hl. unfold startIdx.
    change (firstn 10 (l :: lines)) with (l :: firstn 9 lines).
    cbn [firstDataLine]. rewrite Hl. reflexivity. }
  rewrite (E l0 H), (E l0' H'). split; [reflexivity|].
  destruct (firstDataLine (firstn 9 lines) 1) as [k|] eqn:Ek; [|lia].
  apply firstDataLine_range in Ek. exact Ek.
Qed.

Definition textOf (l : list ascii) : string := string_of_list_ascii l.

Lemma chars_textOf (l : list ascii) : chars (textOf l) = l.
Proof. apply list_ascii_of_string_of_list_ascii. Qed.

(** The file starts with a line that does not begin with a digit (such a
    line is taken for a header): whatever that line holds, it is not read;
    and a file whose first line begins with a digit is read from that line on.
    An empty file gives no sample. *)
Theorem header_line_is_skipped (l0 rest : list ascii)
  (Hline : ~ In Survey.newline l0) :
  (startsWithDigit (trim l0) = false ->
     parseSimulationCSV (textOf (l0 ++ Survey.newline :: rest)) =
     parseSimulationCSV (textOf (Survey.newline :: rest))) /\
  (startsWithDigit (trim l0) = true ->
     dataRows (textOf (l0 ++ Survey.newline :: rest)) =
     parseRow l0 ++ flat_map parseRow (split [Survey.newline] rest)) /\
  parseSimulationCSV "" = [].
Proof.
  split; [|split; [|reflexivity]].
  - intros H. unfold parseSimulationCSV. f_equal. unfold dataRows.
    rewrite !chars_textOf.
    rewrite (split_first_line l0 rest Hline).
    change (Survey.newline :: rest) with ([] ++ Survey.newline :: rest).
    rewrite !(split_first_line [] rest) by (intros []).
    set (lines := split [Survey.newline] rest).
    destruct (startIdx_header l0 [] lines H eq_refl) as [E Hge].
    rewrite <- E. destruct (startIdx (l0 :: lines)) as [|n]; [lia|]. reflexivity.
  - intros H. unfold dataRows. rewrite chars_textOf, (split_first_line l0 rest Hline).
    unfold startIdx. change (firstn 10 (l0 :: split [Survey.newline] rest))
      with (l0 :: firstn 9 (split [Survey.newline] rest)).
    cbn [firstDataLine]. rewrite H. reflexivity.
Qed.

(** The theorem on a file whose first row has a negative MD. *)
Lemma header_line_is_skipped_witness :
  ~ In Survey.newline (chars "-5,1,2") /\
  startsWithDigit (trim (chars "-5,1,2")) = false /\
  parseSimulationCSV (textOf (chars "-5,1,2" ++ Survey.newline :: chars "3,4,5")) =
  parseSimulationCSV (textOf (Survey.newline :: chars "3,4,5")).
Proof.
  assert (H : ~ In Survey.newline (chars "-5,1,2")) by (vm_compute; intuition discriminate).
  split; [exact H|]. split; [reflexivity|].
  apply (header_line_is_skipped (chars "-5,1,2") (chars "3,4,5") H). reflexivity.
Defined.

End SimulationFile.

(** ** The stitched chart as a whole *)

Module StitchFacts.

Import Js FloatOrder Stitch SimulationFile.
Local Open Scope float_scope.

(** *** [Math.max] of numbers *)

Lemma Math_max_from_bounds (l : list float) (highest : float) :
  isNaN highest = false -> Forall (fun x => isNaN x = false) l ->
  let r := Math_max_from highest l in
  (r = highest \/ In r l) /\ (highest <=? r) = true /\
  Forall (fun x => (x <=? r) = true) l.
Proof.
  revert highest. induction l as [|n l IH]; intros h Hh Hl; simpl.
  - split; [left; reflexivity|]. split; [|constructor].
    destruct (h <=? h) eqn:E; [reflexivity|].
    pose proof (leb_total _ _ Hh Hh E) as Hlt. rewrite ltb_irrefl in Hlt. discriminate.
  - inversion Hl as [|? ? Hn Hl']; subst. rewrite Hn.
    assert (Hstep : forall (Hle : (h <=? n) = true),
              let r := Math_max_from n l in
              (r = h \/ n = r \/ In r l) /\ (h <=? r) = true /\
              Forall (fun x => (x <=? r) = true) (n :: l)).
    { intros Hle. destruct (IH n Hn Hl') as [Hin [Hnr Hall]].
      split; [destruct Hin as [->|Hin]; auto|].
      split; [apply leb_trans with n; assumption|].
      constructor; assumption. }
    destruct ((n =? 0) && (h =? 0) && negb (get_sign n)) eqn:Ez.
    + apply Hstep. apply andb_true_iff in Ez. destruct Ez as [Ez _].
      apply andb_true_iff in Ez. destruct Ez as [E1 E2].
      revert E1 E2. by_spec n h 0.
    + destruct (h <? n) eqn:Elt.
      * apply Hstep. apply ltb_leb, Elt.
      * destruct (IH h Hh Hl') as [Hin [Hhr Hall]].
        split; [destruct Hin as [->|Hin]; auto|].
        split; [exact Hhr|].
        constructor; [|exact Hall].
        apply leb_trans with h; [|exact Hhr].
        destruct (n <=? h) eqn:E; [reflexivity|].
        rewrite (leb_total _ _ Hn Hh E) in Elt. discriminate.
Qed.

Lemma Math_max_bounds (l : list float) :
  l <> [] -> Forall (fun x => isNaN x = false) l ->
  Forall (fun x => (x <=? Math_max l) = true) l /\
  exists x, In x l /\ (x =? Math_max l) = true.
Proof.
  intros Hne Hl. unfold Math_max.
  destruct (Math_max_from_bounds l neg_infinity eq_refl Hl) as [Hin [_ Hall]].
  split; [exact Hall|].
  destruct Hin as [E|Hin].
  - destruct l as [|x l]; [congruence|]. exists x. split; [left; reflexivity|].
    inversion Hall as [|? ? Hx _]; subst. rewrite E in *.
    revert Hx. generalize x. intros a. by_spec a a a.
  - exists (Math_max_from neg_infinity l). split; [exact Hin|].
    rewrite Forall_forall in Hl. specialize (Hl _ Hin).
    unfold isNaN in Hl. apply negb_false_iff in Hl. exact Hl.
Qed.

(** *** The connectors leave MD, [rih_standard_1] and POOH alone *)

Lemma updateAt_length (i : nat) (f : StitchedPoint -> StitchedPoint) (l : list StitchedPoint) :
  List.length (updateAt i f l) = List.length l.
Proof.
  revert i. induction l as [|p l IH]; intros [|i]; simpl; auto.
Qed.

Lemma updateAt_md (i : nat) (f : StitchedPoint -> StitchedPoint) (l : list StitchedPoint) :
  (forall p, p_md (f p) = p_md p) -> map p_md (updateAt i f l) = map p_md l.
Proof.
  intros Hf. revert i. induction l as [|p l IH]; intros [|i]; simpl; auto.
  - rewrite Hf. reflexivity.
  - rewrite IH. reflexivity.
Qed.

Lemma connectStandard1_md stopDepth st (m : list StitchedPoint) :
  map p_md (connectStandard1 stopDepth st m) = map p_md m.
Proof.
  unfold connectStandard1.
  destruct (negb (_ =? -1)%Z && (_ <? _)%Z); [|reflexivity].
  destruct (nth_error m _) as [pt|]; [|reflexivity].
  destruct (p_md pt <? stopDepth); [|reflexivity].
  destruct (isNull (rih_tractor pt)); [|reflexivity].
  apply updateAt_md. reflexivity.
Qed.

Lemma connectTractor_md st (m : list StitchedPoint) :
  map p_md (connectTractor st m) = map p_md m.
Proof.
  unfold connectTractor.
  destruct (negb (_ =? -1)%Z && (_ <? _)%Z); [|reflexivity].
  destruct (nth_error m (Z.to_nat (lastRihTractorIndex st))) as [pt|]; [|reflexivity].
  destruct (nth_error m (Z.to_nat (lastRihTractorIndex st + 1))) as [nx|]; [|reflexivity].
  destruct (negb (isNull (rih_standard_2 nx)) || negb (isNull (rih_standard_2 pt)));
    [|reflexivity].
  destruct (isNull (rih_standard_2 pt)); [|reflexivity].
  apply updateAt_md. reflexivity.
Qed.

Section Chart.
Variables rihFile tractorFile : list SimulationSample.
Variable poohFile : option (list SimulationSample).
Variables tractorDepth stopTractorDepth : float.

Let forceDepth := effectiveForceDepth tractorDepth rihFile.
Let stopDepth := effectiveStopDepth stopTractorDepth forceDepth.
Let mds := allMDs rihFile tractorFile poohFile.
Let st := mainPass rihFile tractorFile poohFile forceDepth stopDepth mds.
Let out := stitch rihFile tractorFile poohFile tractorDepth stopTractorDepth.

Lemma stitch_mds : map p_md out = allMDs rihFile tractorFile poohFile.
Proof.
  unfold out, stitch. rewrite connectTractor_md, connectStandard1_md. apply pass_mds.
Qed.

(** The stitched array has one point for each distinct MD of the input
    files, in the order of [allMDs]: the connectors add, drop and move
    nothing. *)
Theorem stitch_keeps_every_depth :
  map p_md out = allMDs rihFile tractorFile poohFile /\
  List.length out = List.length (allMDs rihFile tractorFile poohFile).
Proof.
  split; [exact stitch_mds|]. rewrite <- stitch_mds, length_map. reflexivity.
Qed.

(** The point of the main pass behind a point of the stitched array. *)
Lemma out_point (i : nat) (q : StitchedPoint) :
  nth_error out i = Some q ->
  exists m v, nth_error mds i = Some m /\
    p_md q = m /\
    rih_standard_1 q =
      rih_standard_1 (pointFor rihFile tractorFile poohFile forceDepth stopDepth v m) /\
    p_pooh q = p_pooh (pointFor rihFile tractorFile poohFile forceDepth stopDepth v m).
Proof.
  intros H.
  destruct (out_frame rihFile tractorFile poohFile tractorDepth stopTractorDepth i q H)
    as [p [Hp [Hmd [H1 Hpooh]]]].
  destruct (merged_point rihFile tractorFile poohFile tractorDepth stopTractorDepth i p Hp)
    as [m [Hm ->]].
  exists m. eexists. split; [exact Hm|].
  rewrite Hmd, H1, Hpooh.
  rewrite (pointFor_md rihFile tractorFile poohFile tractorDepth stopTractorDepth).
  repeat split.
Qed.

(** A point at or above the force depth has no [rih_standard_1]. *)
Lemma no_standard_1_from_force_depth (q : StitchedPoint) :
  In q out -> (p_md q <? forceDepth) = false -> rih_standard_1 q = None.
Proof.
  intros Hq E. apply In_nth_error in Hq. destruct Hq as [i Hi].
  destruct (out_point i q Hi) as [m [v [_ [Emd [E1 _]]]]].
  rewrite E1. unfold pointFor. rewrite <- Emd, E.
  destruct ((forceDepth <=? p_md q) && (p_md q <? stopDepth)); reflexivity.
Qed.

(** Once stitched, the POOH value of every point comes from the override
    file when there is one, and from the tractor file otherwise: the sample
    within 0.5 of the point's MD, or null without such a sample.  The POOH
    column of the rih file is not used. *)
Theorem stitched_pooh_source :
  Forall (fun q =>
    p_pooh q =
      match poohFile with
      | Some override =>
          match findNear override (p_md q) with Some s => pooh s | None => None end
      | None =>
          match findNear tractorFile (p_md q) with Some s => pooh s | None => None end
      end) out.
Proof.
  apply Forall_forall. intros q Hq.
  apply In_nth_error in Hq. destruct Hq as [i Hi].
  destruct (out_point i q Hi) as [m [v [_ [-> [_ ->]]]]].
  unfold pointFor, poohAt, poohSource.
  destruct (m <? forceDepth); [|destruct ((forceDepth <=? m) && (m <? stopDepth))];
    destruct poohFile; reflexivity.
Qed.

(** No point of the stitched array carries both a [rih_standard_1] and a
    [rih_standard_2] value: the two standard segments never overlap, whatever
    the connectors write. *)
Theorem standard_segments_never_overlap :
  Forall (fun q => rih_standard_1 q = None \/ rih_standard_2 q = None) out.
Proof.
  apply Forall_forall. intros q Hq.
  destruct (p_md q <? forceDepth) eqn:Eforce;
    [|left; apply no_standard_1_from_force_depth; assumption].
  right.
  apply In_nth_error in Hq. destruct Hq as [i Hi].
  destruct (out_point i q Hi) as [m [v [Hm [Emd _]]]]. rewrite Emd in Eforce.
  (* a Phase-1 point: connector 2 does not write here *)
  destruct (connectStandard1_spec stopDepth st (merged st)
              (last1_index_range rihFile tractorFile poohFile tractorDepth stopTractorDepth))
    as [w1 [C1 _]].
  destruct (connectTractor_spec st (connectStandard1 stopDepth st (merged st))
              (last2_index_range rihFile tractorFile poohFile tractorDepth stopTractorDepth))
    as [w2 [C2 Hw2]].
  assert (Hw2i : w2 <> Some i).
  { intros ->. destruct (proj1 (Hw2 i) eq_refl) as [Hidx _].
    destruct (lastRecord_index rihFile tractorFile poohFile _ _ _ _ i
                (pass_last2 rihFile tractorFile poohFile forceDepth stopDepth mds) Hidx)
      as [m' [Hm' [Hr _]]].
    fold mds in Hm'. rewrite Hm in Hm'. inversion Hm'; subst m'.
    unfold records2 in Hr. rewrite Eforce in Hr. discriminate. }
  unfold out, stitch in Hi. fold forceDepth stopDepth mds st in Hi.
  rewrite (Connected_nth _ _ _ _ i C2) in Hi.
  replace (match w2 with Some i0 => Nat.eqb i0 i | None => false end) with false in Hi.
  2:{ destruct w2 as [k|]; [|reflexivity]. symmetry. apply Nat.eqb_neq. congruence. }
  rewrite (Connected_nth _ _ _ _ i C1) in Hi.
  unfold st in Hi.
  rewrite (pass_nth rihFile tractorFile poohFile forceDepth stopDepth mds i m Hm) in Hi.
  destruct (match w1 with Some i0 => Nat.eqb i0 i | None => false end);
    simpl in Hi; inversion Hi; subst; unfold pointFor; rewrite Eforce; reflexivity.
Qed.

End Chart.

(** When no tractor depth is given (0, or not a number), the force depth is
    the deepest MD of the rih file: no rih sample lies deeper, some sample lies
    at that depth, and the points at that depth carry no [rih_standard_1]:
    the deepest rih sample is never drawn on the first standard segment. *)
Theorem default_force_depth_is_deepest (rihFile tractorFile : list SimulationSample)
  (poohFile : option (list SimulationSample)) (tractorDepth stopTractorDepth : float)
  (Hdefault : truthy tractorDepth = false)
  (Hrih : rihFile <> [])
  (Hnum : Forall (fun s => isNaN (md s) = false) rihFile) :
  let forceDepth := effectiveForceDepth tractorDepth rihFile in
  Forall (fun s => (md s <=? forceDepth) = true) rihFile /\
  (exists s, In s rihFile /\ (md s =? forceDepth) = true) /\
  Forall (fun q => (p_md q =? forceDepth) = true -> rih_standard_1 q = None)
    (stitch rihFile tractorFile poohFile tractorDepth stopTractorDepth).
Proof.
  intros forceDepth.
  assert (E : forceDepth = Math_max (map md rihFile)).
  { unfold forceDepth, effectiveForceDepth, orElse. rewrite Hdefault. reflexivity. }
  assert (Hne : map md rihFile <> []) by (destruct rihFile; [congruence | discriminate]).
  assert (Hn : Forall (fun x => isNaN x = false) (map md rihFile)) by (apply Forall_map, Hnum).
  destruct (Math_max_bounds _ Hne Hn) as [Hall [x [Hx Hmax]]].
  rewrite <- E in Hall, Hmax.
  split; [apply Forall_map in Hall; exact Hall|]. split.
  - apply in_map_iff in Hx. destruct Hx as [s [<- Hs]]. exists s. auto.
  - apply Forall_forall. intros q Hq Heq.
    apply (no_standard_1_from_force_depth rihFile tractorFile poohFile
             tractorDepth stopTractorDepth q Hq).
    fold forceDepth. revert Heq. generalize (p_md q) forceDepth. intros a b.
    by_spec a b a.
Qed.

Definition rihDeep : list SimulationSample :=
  [mkSample 0 (Some 1) None; mkSample 400 (Some 2) None; mkSample 800 (Some 3) None].

Definition tractorDeep : list SimulationSample :=
  [mkSample 800 (Some 7) None; mkSample 1200 (Some 8) None].

(** The theorem for a rih file that ends at MD 800, without a tractor depth. *)
Lemma default_force_depth_is_deepest_witness :
  truthy 0 = false /\
  effectiveForceDepth 0 rihDeep = 800 /\
  Forall (fun q => (p_md q =? 800) = true -> rih_standard_1 q = None)
    (stitch rihDeep tractorDeep None 0 0).
Proof.
  split; [reflexivity|]. split; [reflexivity|].
  refine (proj2 (proj2 (default_force_depth_is_deepest rihDeep tractorDeep None 0 0
                          eq_refl _ _))).
  - discriminate.
  - repeat constructor.
Defined.

(** A chart stitched from parsed files has strictly ascending MDs: no
    depth occurs twice and none is NaN. *)
Theorem chart_of_parsed_files_ascends (rihText tractorText : string)
  (poohText : option string) (tractorDepth stopTractorDepth : float) :
  SortFacts.strictlyAscending
    (map p_md (stitch (parseSimulationCSV rihText) (parseSimulationCSV tractorText)
                 (option_map parseSimulationCSV poohText) tractorDepth stopTractorDepth)).
Proof.
  rewrite stitch_mds. unfold allMDs.
  apply (SortFacts.sorted_dedup
           (map md (parseSimulationCSV rihText) ++ map md (parseSimulationCSV tractorText) ++
            mdsOf (option_map parseSimulationCSV poohText))).
  repeat (apply Forall_app; split); try apply parsed_md_numeric.
  destruct poohText as [t|]; simpl; [apply parsed_md_numeric | constructor].
Qed.

End StitchFacts.

(** ** The first [SimulationBuilder]: merging on upload (App.jsx, lines 835-882) *)

Module LegacyMerge.

Import Js FloatOrder Stitch.
Local Open Scope float_scope.

(** A point of the chart of the first builder. *)
Record MergedPoint := mkMerged {
  m_md : float;
  rih_standard : option float;
  m_rih_tractor : option float;
  m_pooh : option float
}.

(** The callback of "Logic 2 & 3: Tractor Handling". *)
Definition withTractor (tractorFile : list SimulationSample) (hasPooh : bool)
  (tractorDepth : float) (p : MergedPoint) : MergedPoint :=
  if tractorDepth <=? m_md p then
    match findNear tractorFile (m_md p) with
    | Some tractorPoint =>
        mkMerged (m_md p) None (rih tractorPoint)
          (if hasPooh then m_pooh p else pooh tractorPoint)
    | None => p
    end
  else p.

(** The callback of "Logic 3: Dedicated POOH File". *)
Definition withPooh (poohFile : list SimulationSample) (p : MergedPoint) : MergedPoint :=
  mkMerged (m_md p) (rih_standard p) (m_rih_tractor p)
    (match findNear poohFile (m_md p) with
     | Some poohPoint => pooh poohPoint
     | None => m_pooh p
     end).

(** The effect on [files] and [tractorDepth]: the new [chartData]. *)
Definition mergeOnUpload (files : Files) (tractorDepth : float) : list MergedPoint :=
  match f_rih files with
  | None => []
  | Some rihFile =>
      let merged := map (fun p => mkMerged (md p) (rih p) None (pooh p)) rihFile in
      let merged :=
        match f_tractor files with
        | Some tractorFile =>
            if 0 <? tractorDepth
            then map (withTractor tractorFile
                        (match f_pooh files with Some _ => true | None => false end)
                        tractorDepth) merged
            else merged
        | None => merged
        end in
      match f_pooh files with
      | Some poohFile => map (withPooh poohFile) merged
      | None => merged
      end
  end.

(** The tractor sample that replaces the rih sample [s], if any. *)
Definition tractorAt (files : Files) (tractorDepth : float) (s : SimulationSample)
  : option SimulationSample :=
  match f_tractor files with
  | Some tractorFile =>
      if (0 <? tractorDepth) && (tractorDepth <=? md s)
      then findNear tractorFile (md s) else None
  | None => None
  end.

(** The point shown for the rih sample [s]. *)
Definition shownFor (files : Files) (tractorDepth : float) (s : SimulationSample)
  : MergedPoint :=
  let fallback :=
    match f_pooh files, tractorAt files tractorDepth s with
    | None, Some tractorPoint => pooh tractorPoint
    | _, _ => pooh s
    end in
  mkMerged (md s)
    (match tractorAt files tractorDepth s with Some _ => None | None => rih s end)
    (match tractorAt files tractorDepth s with Some t => rih t | None => None end)
    (match f_pooh files with
     | Some poohFile =>
         match findNear poohFile (md s) with
         | Some poohPoint => pooh poohPoint
         | None => fallback
         end
     | None => fallback
     end).

(** The first builder shows one point per rih sample, at the sample's MD
    and in the order of the file; the point carries the tractor file's RIH
    value instead of the sample's own when a tractor file is loaded, the
    tractor depth is positive, the sample lies at or below it and the tractor
    file has a sample within 0.5, and never both values;  POOH is that of the
    override file's sample within 0.5 if there is one, else that of the
    tractor sample where it replaced the rih sample and no override file is
    loaded, else the rih sample's own. *)
Theorem merge_on_upload_pointwise (rihFile : list SimulationSample)
  (tractorFile poohFile : option (list SimulationSample)) (tractorDepth : float) :
  let files := mkFiles (Some rihFile) tractorFile poohFile in
  mergeOnUpload files tractorDepth = map (shownFor files tractorDepth) rihFile /\
  map m_md (mergeOnUpload files tractorDepth) = map md rihFile /\
  Forall (fun p => rih_standard p = None \/ m_rih_tractor p = None)
    (mergeOnUpload files tractorDepth) /\
  mergeOnUpload (mkFiles None tractorFile poohFile) tractorDepth = [].
Proof.
  intros files.
  assert (E : mergeOnUpload files tractorDepth = map (shownFor files tractorDepth) rihFile).
  { unfold mergeOnUpload, files. simpl f_rih. simpl f_tractor. simpl f_pooh.
    assert (Hstep : forall (tf : list SimulationSample) hp s,
              withTractor tf hp tractorDepth (mkMerged (md s) (rih s) None (pooh s)) =
              match (if tractorDepth <=? md s then findNear tf (md s) else None) with
              | Some t => mkMerged (md s) None (rih t) (if hp then pooh s else pooh t)
              | None => mkMerged (md s) (rih s) None (pooh s)
              end).
    { intros tf hp s. unfold withTractor. simpl.
      destruct (tractorDepth <=? md s); [|reflexivity].
      destruct (findNear tf (md s)); reflexivity. }
    destruct tractorFile as [tf|], poohFile as [pf|];
      try destruct (0 <? tractorDepth) eqn:Epos;
      rewrite ?map_map; apply map_ext; intros s;
      unfold shownFor, tractorAt, withPooh; simpl; rewrite ?Epos; simpl;
      rewrite ?Hstep;
      try (destruct (tractorDepth <=? md s); simpl);
      try (destruct (findNear tf (md s)); simpl);
      try (destruct (findNear pf (md s)); simpl); reflexivity. }
  split; [exact E|]. split; [|split; [|reflexivity]].
  - rewrite E, map_map. reflexivity.
  - rewrite E. apply Forall_forall. intros p Hp. apply in_map_iff in Hp.
    destruct Hp as [s [<- _]]. unfold shownFor. simpl.
    destruct (tractorAt files tractorDepth s); auto.
Qed.

End LegacyMerge.

(** ** Printing numbers: [toFixed] and [fmt] (App.jsx, lines 110-113) *)

Module Printing.

Import Js Text.
Local Open Scope char_scope.
Local Open Scope Z_scope.

Definition digitChar (v : Z) : ascii := ascii_of_nat (48 + Z.to_nat v).

(** The decimal digits of [n], the last digit first, in front of [acc]. *)
Fixpoint decimalFrom (fuel : nat) (n : Z) (acc : list ascii) : list ascii :=
  match fuel with
  | O => acc
  | S fuel' =>
      let acc' := digitChar (n mod 10) :: acc in
      if n <? 10 then acc' else decimalFrom fuel' (n / 10) acc'
  end.

(** The decimal representation of the integer [n >= 0]; a number has at most
    as many decimal digits as binary ones. *)
Definition decimal (n : Z) : list ascii :=
  decimalFrom (S (Z.to_nat (Z.log2 n))) n [].

(** The integer [n] of [toFixed]: [n / 10^d] is as close to [m * 2^e] as
    possible, and [n] is the larger one of two such integers. *)
Definition fixedInteger (d : nat) (m : positive) (e : Z) : Z :=
  let p := 10 ^ Z.of_nat d in
  match e with
  | Zneg k => (2 * Zpos m * p + 2 ^ Zpos k) / 2 ^ (Zpos k + 1)
  | _ => Zpos m * 2 ^ e * p
  end.

(** The digits of [n] with the decimal point before the last [d] of them,
    after zeros in front where [n] has no more than [d] digits. *)
Definition fixedText (d : nat) (n : Z) : list ascii :=
  let m := decimal n in
  match d with
  | O => m
  | _ =>
      let m := repeat "0" (S d - List.length m) ++ m in
      firstn (List.length m - d) m ++ "." :: skipn (List.length m - d) m
  end.

(** What [toFixed] returns: a text in fixed notation, or, for a number from
    [1e21] on, the text of [Number::toString], which is not spelled out. *)
Inductive Printed :=
| Fixed (s : list ascii)
| Exponential (x : float).

(** [x.toFixed(d)] for [0 <= d <= 100] *)
Definition toFixed (d : nat) (x : float) : Printed :=
  match Prim2SF x with
  | S754_nan => Fixed (chars "NaN")
  | S754_infinity s => Fixed (if s then chars "-Infinity" else chars "Infinity")
  | S754_zero _ => Fixed (fixedText d 0)
  | S754_finite s m e =>
      if (1e21 <=? abs x)%float then Exponential x
      else Fixed ((if s then ["-"] else []) ++ fixedText d (fixedInteger d m e))
  end.

(** [fmt(val)]; [parseFloat] of a number is the number. *)
Definition fmt (val : Pressure.Field) : Printed :=
  let n := match val with
           | Pressure.Num x => x
           | Pressure.Txt s => parseFloat (chars s)
           end in
  if isNaN n then Fixed (chars "0.0000") else toFixed 4 n.

(** *** Reading back what was printed *)

Definition isDigit (c : ascii) : bool :=
  match digit c with Some _ => true | None => false end.

Definition digitValue (c : ascii) : Z :=
  match digit c with Some v => v | None => 0 end.

Definition valueOf (l : list ascii) (acc : Z) : Z :=
  fold_left (fun a c => 10 * a + digitValue c) l acc.

Definition startsWithNoDigit (s : list ascii) : Prop :=
  match s with c :: _ => isDigit c = false | [] => True end.

Lemma digit_digitChar (v : Z) : 0 <= v < 10 -> digit (digitChar v) = Some v.
Proof.
  intros H.
  assert (C : v = 0 \/ v = 1 \/ v = 2 \/ v = 3 \/ v = 4 \/ v = 5 \/ v = 6 \/ v = 7 \/
              v = 8 \/ v = 9) by lia.
  repeat (destruct C as [->|C]; [reflexivity|]). subst. reflexivity.
Qed.

Lemma digits_app (ds rest : list ascii) (acc : Z) (count : nat) :
  forallb isDigit ds = true -> startsWithNoDigit rest ->
  digits (ds ++ rest) acc count = (valueOf ds acc, (count + List.length ds)%nat, rest).
Proof.
  revert acc count. induction ds as [|c ds IH]; intros acc count Hd Hr.
  - cbn [app valueOf fold_left List.length]. rewrite Nat.add_0_r.
    destruct rest as [|c rest]; [reflexivity|]. cbn [digits].
    unfold startsWithNoDigit, isDigit in Hr. destruct (digit c); [discriminate | reflexivity].
  - cbn [forallb] in Hd. apply andb_true_iff in Hd. destruct Hd as [Hc Hd].
    cbn [app digits]. unfold isDigit in Hc. unfold valueOf. cbn [fold_left].
    unfold digitValue at 2. destruct (digit c) as [v|]; [|discriminate].
    rewrite (IH _ _ Hd Hr). cbn [List.length]. f_equal. f_equal. lia.
Qed.

Lemma valueOf_shift (l : list ascii) (acc : Z) :
  valueOf l acc = acc * 10 ^ Z.of_nat (List.length l) + valueOf l 0.
Proof.
  revert acc. induction l as [|c l IH]; intros acc.
  - cbn. lia.
  - unfold valueOf. cbn [fold_left]. fold (valueOf l (10 * acc + digitValue c)).
    fold (valueOf l (10 * 0 + digitValue c)).
    rewrite (IH (10 * acc + digitValue c)), (IH (10 * 0 + digitValue c)).
    cbn [List.length]. rewrite Nat2Z.inj_succ, Z.pow_succ_r by lia. ring.
Qed.

Lemma valueOf_app (a b : list ascii) (acc : Z) :
  valueOf (a ++ b) acc = valueOf b (valueOf a acc).
Proof. unfold valueOf. apply fold_left_app. Qed.

Lemma decimalFrom_spec (fuel : nat) (n : Z) (acc : list ascii) :
  0 <= n < 10 ^ Z.of_nat fuel -> forallb isDigit acc = true ->
  forallb isDigit (decimalFrom fuel n acc) = true /\
  valueOf (decimalFrom fuel n acc) 0 = n * 10 ^ Z.of_nat (List.length acc) + valueOf acc 0 /\
  (fuel <> O -> decimalFrom fuel n acc <> []).
Proof.
  revert n acc. induction fuel as [|fuel IH]; intros n acc Hn Hacc.
  - cbn in Hn. assert (n = 0) by lia. subst. cbn [decimalFrom].
    split; [exact Hacc|]. split; [lia | congruence].
  - cbn [decimalFrom].
    assert (Hmod : 0 <= n mod 10 < 10) by (apply Z.mod_pos_bound; lia).
    assert (Hd : isDigit (digitChar (n mod 10)) = true)
      by (unfold isDigit; rewrite digit_digitChar by exact Hmod; reflexivity).
    assert (Hv : digitValue (digitChar (n mod 10)) = n mod 10)
      by (unfold digitValue; rewrite digit_digitChar by exact Hmod; reflexivity).
    assert (Hacc' : forallb isDigit (digitChar (n mod 10) :: acc) = true)
      by (cbn [forallb]; rewrite Hd, Hacc; reflexivity).
    assert (Hval : valueOf (digitChar (n mod 10) :: acc) 0 =
                   (n mod 10) * 10 ^ Z.of_nat (List.length acc) + valueOf acc 0).
    { unfold valueOf at 1. cbn [fold_left]. fold (valueOf acc (10 * 0 + digitValue (digitChar (n mod 10)))).
      rewrite valueOf_shift, Hv. ring. }
    destruct (Z.ltb_spec n 10) as [Hlt|Hge].
    + split; [exact Hacc'|]. split; [|discriminate].
      rewrite Hval, Z.mod_small by lia. reflexivity.
    + rewrite Nat2Z.inj_succ, Z.pow_succ_r in Hn by lia.
      assert (Hq : 0 <= n / 10 < 10 ^ Z.of_nat fuel).
      { split; [apply Z.div_pos; lia|]. apply Z.div_lt_upper_bound; lia. }
      destruct (IH (n / 10) _ Hq Hacc') as [H1 [H2 H3]].
      split; [exact H1|]. split.
      * rewrite H2, Hval. cbn [List.length]. rewrite Nat2Z.inj_succ, Z.pow_succ_r by lia.
        pose proof (Z.div_mod n 10 ltac:(lia)) as E.
        set (P := 10 ^ Z.of_nat (List.length acc)) in *. nia.
      * intros _. destruct fuel as [|fuel'].
        -- cbn in Hq. lia.
        -- apply H3. discriminate.
Qed.

Lemma decimal_spec (n : Z) :
  0 <= n ->
  forallb isDigit (decimal n) = true /\ valueOf (decimal n) 0 = n /\ decimal n <> [].
Proof.
  intros Hn. unfold decimal.
  assert (Hfuel : 0 <= n < 10 ^ Z.of_nat (S (Z.to_nat (Z.log2 n)))).
  { split; [exact Hn|].
    rewrite Nat2Z.inj_succ, Z2Nat.id by apply Z.log2_nonneg.
    destruct (Z.eq_dec n 0) as [->|Hne]; [cbn; lia|].
    apply Z.lt_le_trans with (2 ^ Z.succ (Z.log2 n)); [apply Z.log2_spec; lia|].
    apply Z.pow_le_mono_l. pose proof (Z.log2_nonneg n). lia. }
  destruct (decimalFrom_spec _ n [] Hfuel eq_refl) as [H1 [H2 H3]].
  split; [exact H1|]. split; [|apply H3; discriminate].
  rewrite H2. cbn. lia.
Qed.

Lemma digit_first (c : ascii) (s : list ascii) :
  isDigit c = true ->
  trimStart (c :: s) = c :: s /\ signOf (c :: s) = (false, c :: s) /\
  isPrefix (chars "Infinity") (c :: s) = false.
Proof.
  destruct c as [b0 b1 b2 b3 b4 b5 b6 b7].
  destruct b0, b1, b2, b3, b4, b5, b6, b7; intros H; try discriminate H;
    repeat split; reflexivity.
Qed.

Lemma forallb_repeat_zero (k : nat) : forallb isDigit (repeat "0" k) = true.
Proof. induction k as [|k IH]; [reflexivity|]. cbn [repeat forallb]. rewrite IH. reflexivity. Qed.

Lemma valueOf_repeat_zero (k : nat) : valueOf (repeat "0" k) 0 = 0.
Proof. induction k as [|k IH]; [reflexivity|]. cbn [repeat]. unfold valueOf in *. cbn [fold_left]. exact IH. Qed.

(** The shape of a text in fixed notation with [d > 0] decimals. *)
Lemma fixedText_shape (d : nat) (n : Z) :
  0 <= n -> d <> O ->
  exists a b, fixedText d n = a ++ "." :: b /\ a <> [] /\ List.length b = d /\
    forallb isDigit a = true /\ forallb isDigit b = true /\ valueOf (a ++ b) 0 = n.
Proof.
  intros Hn Hd. destruct (decimal_spec n Hn) as [Hdig [Hval Hne]].
  unfold fixedText. destruct d as [|d]; [congruence|].
  set (m := repeat "0" (S (S d) - List.length (decimal n)) ++ decimal n).
  assert (Hlen : (S (S d) <= List.length m)%nat).
  { unfold m. rewrite length_app, repeat_length. lia. }
  assert (Hm : forallb isDigit m = true).
  { unfold m. rewrite forallb_app, forallb_repeat_zero, Hdig. reflexivity. }
  assert (Hv : valueOf m 0 = n).
  { unfold m. rewrite valueOf_app, valueOf_repeat_zero. exact Hval. }
  exists (firstn (List.length m - S d) m), (skipn (List.length m - S d) m).
  split; [reflexivity|].
  rewrite <- (firstn_skipn (List.length m - S d) m) in Hm, Hv at 1.
  rewrite forallb_app in Hm. apply andb_true_iff in Hm. destruct Hm as [Ha Hb].
  split.
  - intros E. apply (f_equal (@List.length ascii)) in E.
    rewrite length_firstn in E. change (List.length (@nil ascii)) with 0%nat in E. lia.
  - split; [rewrite length_skipn; lia|]. split; [exact Ha|]. split; [exact Hb|]. exact Hv.
Qed.

Lemma parseFloat_fixedText (neg : bool) (d : nat) (n : Z) :
  0 <= n ->
  parseFloat ((if neg then ["-"] else []) ++ fixedText d n) = nearest neg n (10 ^ Z.of_nat d).
Proof.
  intros Hn.
  assert (Hparse : forall a rest, forallb isDigit a = true -> a <> [] ->
            startsWithNoDigit rest ->
            parseFloat ((if neg then ["-"] else []) ++ a ++ rest) =
            let '(ip, ni, s2) := (valueOf a 0, List.length a, rest) in
            let '(m, nf, s3) :=
              match s2 with
              | "." :: r => digits r ip O
              | _ => (ip, O, s2)
              end in
            match ni, nf with
            | O, O => nan
            | _, _ =>
                let e := exponentPart s3 - Z.of_nat nf in
                match e with
                | Zneg k => nearest neg m (10 ^ Zpos k)
                | _ => nearest neg (m * 10 ^ e) 1
                end
            end).
  { intros a rest Ha Hne Hr. destruct a as [|c a]; [congruence|].
    cbn [forallb] in Ha. apply andb_true_iff in Ha. destruct Ha as [Hc Ha].
    destruct (digit_first c (a ++ rest) Hc) as [Ht [Hs Hi]].
    assert (Ed : digits ((c :: a) ++ rest) 0 0 =
                 (valueOf (c :: a) 0, List.length (c :: a), rest)).
    { rewrite digits_app; [reflexivity| |exact Hr]. cbn [forallb]. rewrite Hc, Ha. reflexivity. }
    unfold parseFloat. destruct neg.
    - change (trimStart (["-"] ++ (c :: a) ++ rest)) with ("-" :: (c :: a) ++ rest).
      change (signOf ("-" :: (c :: a) ++ rest)) with (true, (c :: a) ++ rest).
      cbn [app] in Hi |- *. rewrite Hi. cbn [app] in Ed. rewrite Ed. reflexivity.
    - cbn [app] in Ht, Hs, Hi, Ed |- *. rewrite Ht, Hs, Hi, Ed. reflexivity. }
  destruct (decimal_spec n Hn) as [Hdig [Hval Hne]].
  destruct d as [|d].
  - unfold fixedText. rewrite <- (app_nil_r (decimal n)).
    rewrite Hparse by (auto; exact I).
    rewrite Hval. destruct (List.length (decimal n)) eqn:El.
    { destruct (decimal n); [congruence | discriminate El]. }
    cbn. rewrite Z.mul_1_r. reflexivity.
  - destruct (fixedText_shape (S d) n Hn ltac:(discriminate)) as [a [b [E [Ha [Hb [Hda [Hdb Hv]]]]]]].
    rewrite E, Hparse by (auto; reflexivity).
    rewrite <- (app_nil_r b) at 1. rewrite digits_app by (auto; exact I).
    rewrite <- valueOf_app, Hv, Hb.
    destruct (List.length a) eqn:El.
    { destruct a; [congruence | discriminate El]. }
    cbn [exponentPart Nat.add].
    destruct (0 - Z.of_nat (S d)) as [|k|k] eqn:Ee; try lia.
    replace (Z.of_nat (S d)) with (Zpos k) by lia. reflexivity.
Qed.

(** Reading back what [toFixed] printed. *)
Lemma toFixed_model (d : nat) (x : float) :
  match toFixed d x with
  | Fixed s => parseFloat s = toFixedNum d x
  | Exponential y => y = x /\ (1e21 <=? abs x)%float = true
  end.
Proof.
  unfold toFixed, toFixedNum.
  destruct (Prim2SF x) as [s|s| |s m e] eqn:E.
  - change (fixedText d 0) with ((if false then ["-"] else []) ++ fixedText d 0).
    rewrite parseFloat_fixedText by lia. reflexivity.
  - rewrite <- (SF2Prim_Prim2SF x), E. destruct s; vm_compute; reflexivity.
  - vm_compute. reflexivity.
  - destruct (1e21 <=? abs x)%float eqn:Ebig; [split; reflexivity|].
    rewrite parseFloat_fixedText; [reflexivity|].
    unfold fixedInteger. destruct e as [|k|k]; try lia.
    apply Z.div_pos; [|apply Z.pow_pos_nonneg; lia].
    pose proof (Z.pow_nonneg 10 (Z.of_nat d) ltac:(lia)).
    pose proof (Z.pow_nonneg 2 (Zpos k) ltac:(lia)). nia.
Qed.

(** A numeral with exactly four decimals. *)
Definition fourDecimals (s : list ascii) : Prop :=
  exists sign a b,
    s = sign ++ a ++ "." :: b /\ (sign = [] \/ sign = ["-"]) /\ a <> [] /\
    forallb isDigit a = true /\ forallb isDigit b = true /\ List.length b = 4%nat.

(** [fmt] prints a numeral with exactly four decimals whose value is the
    number rounded to four decimals, [0.0000] for what does not parse to a
    number, [Infinity] or [-Infinity] for an infinite number; only a number
    from [1e21] on is printed in another notation. *)
Theorem fmt_prints_four_decimals (val : Pressure.Field) :
  let n := match val with
           | Pressure.Num x => x
           | Pressure.Txt t => parseFloat (chars t)
           end in
  match fmt val with
  | Fixed s =>
      parseFloat s = (if isNaN n then PrimFloat.zero else toFixedNum 4 n) /\
      (fourDecimals s \/ s = chars "Infinity" \/ s = chars "-Infinity")
  | Exponential y => y = n /\ (1e21 <=? abs n)%float = true
  end.
Proof.
  intros n. unfold fmt. fold n.
  destruct (isNaN n) eqn:En.
  { split; [vm_compute; reflexivity|]. left.
    exists [], (chars "0"), (chars "0000"). repeat split; auto. discriminate. }
  pose proof (toFixed_model 4 n) as H. revert H.
  unfold toFixed.
  destruct (Prim2SF n) as [s|s| |s m e] eqn:E.
  - intros H. split; [exact H|]. left.
    destruct (fixedText_shape 4 0 ltac:(lia) ltac:(discriminate))
      as [a [b [Et [Ha [Hb [Hda [Hdb _]]]]]]].
    exists [], a, b. rewrite Et. repeat split; auto.
  - intros H. split; [exact H|]. right. destruct s; auto.
  - apply FloatOrder.isNaN_spec in E. congruence.
  - destruct (1e21 <=? abs n)%float; [auto|].
    intros H. split; [exact H|]. left.
    assert (Hn : 0 <= fixedInteger 4 m e).
    { unfold fixedInteger. destruct e as [|k|k]; try lia.
      apply Z.div_pos; [|apply Z.pow_pos_nonneg; lia].
      pose proof (Z.pow_nonneg 2 (Zpos k) ltac:(lia)). nia. }
    destruct (fixedText_shape 4 _ Hn ltac:(discriminate))
      as [a [b [Et [Ha [Hb [Hda [Hdb _]]]]]]].
    exists (if s then ["-"] else []), a, b. rewrite Et.
    repeat split; auto. destruct s; auto.
Qed.

(** A numeral in fixed notation with [d] decimals. *)
Definition fixedNumeral (d : nat) (s : list ascii) : Prop :=
  exists sign a b,
    s = sign ++ a ++ (match d with O => [] | _ => "." :: b end) /\
    (sign = [] \/ sign = ["-"]) /\ a <> [] /\
    forallb isDigit a = true /\ forallb isDigit b = true /\ List.length b = d.

Lemma fixedText_numeral (neg : bool) (d : nat) (n : Z) :
  0 <= n -> fixedNumeral d ((if neg then ["-"] else []) ++ fixedText d n).
Proof.
  intros Hn. exists (if neg then ["-"] else []).
  destruct d as [|d].
  - destruct (decimal_spec n Hn) as [Hdig [_ Hne]].
    exists (decimal n), []. unfold fixedText. rewrite app_nil_r.
    repeat split; auto. destruct neg; auto.
  - destruct (fixedText_shape (S d) n Hn ltac:(discriminate))
      as [a [b [Et [Ha [Hb [Hda [Hdb _]]]]]]].
    exists a, b. rewrite Et. repeat split; auto. destruct neg; auto.
Qed.

(** [parseFloat(x.toFixed(d))], the rounding used for survey depths, casing
    diameters and pressures: [toFixed] prints a numeral with exactly [d]
    decimals (or [NaN], [Infinity], [-Infinity]), and [parseFloat] reads it
    back as [toFixedNum d x], the number nearest to the integer of [toFixed]
    over [10^d]; only a number from [1e21] on is printed in another
    notation. *)
Theorem toFixed_reads_back (d : nat) (x : float) :
  match toFixed d x with
  | Fixed s =>
      parseFloat s = toFixedNum d x /\
      (fixedNumeral d s \/ s = chars "NaN" \/ s = chars "Infinity" \/
       s = chars "-Infinity")
  | Exponential y => y = x /\ (1e21 <=? abs x)%float = true
  end.
Proof.
  pose proof (toFixed_model d x) as H. revert H. unfold toFixed.
  destruct (Prim2SF x) as [s|s| |s m e] eqn:E.
  - intros H. split; [exact H|]. left.
    apply (fixedText_numeral false d 0). lia.
  - intros H. split; [exact H|]. right. destruct s; auto.
  - intros H. split; [exact H|]. auto.
  - destruct (1e21 <=? abs x)%float; [auto|].
    intros H. split; [exact H|]. left. apply fixedText_numeral.
    unfold fixedInteger. destruct e as [|k|k]; try lia.
    apply Z.div_pos; [|apply Z.pow_pos_nonneg; lia].
    pose proof (Z.pow_nonneg 10 (Z.of_nat d) ltac:(lia)).
    pose proof (Z.pow_nonneg 2 (Zpos k) ltac:(lia)). nia.
Qed.

End Printing.

(** ** The fluids step: the loop of the pressure profile and the interface
    calculator ([StepFluids], App.jsx lines 1106-1160; [RunConfiguration],
    line 997) *)

Module Fluids.

Import Js FloatOrder Text Pressure.
Local Open Scope float_scope.

(** [maxDepth] of [RunConfiguration]: [Math.max(...well.survey.map(p => p.md), 0)] *)
Definition maxDepth (survey : list Survey.SurveyStation) : float :=
  Math_max (map Survey.md survey ++ [0]).

Lemma zero_cases (x : float) : (x =? 0) = true -> x = 0 \/ x = neg_zero.
Proof.
  rewrite FloatAxioms.eqb_spec. intros H.
  rewrite <- (SF2Prim_Prim2SF x).
  destruct (Prim2SF x) as [[]|[]| |[] m e]; try discriminate H; auto.
Qed.

Section Loop.
Variable whpField : Field.
Variable fluidList : list FluidLayer.
Variable maxTVD : float.
Variable getTVD : float -> float.

Lemma stuck_loop (maxMD m : float) :
  (m <=? maxMD) = true -> m + depthStep maxMD = m ->
  forall fuel, profileFrom whpField fluidList maxMD maxTVD getTVD fuel m = None.
Proof.
  intros Hle Hstep fuel. induction fuel as [|fuel IH]; [reflexivity|].
  cbn [profileFrom]. rewrite Hle, Hstep, IH. reflexivity.
Qed.

(** The loop of the pressure profile does not end when [maxMD] is 0 (the
    step is 0) or infinite (the counter stays at [Infinity]); it pushes
    nothing when [maxMD] is negative or NaN. *)
Theorem pressure_loop_edge_cases (maxMD : float) :
  ((maxMD =? 0) = true \/ maxMD = infinity ->
     forall fuel, pressureData whpField fluidList maxMD maxTVD getTVD fuel = None) /\
  ((0 <=? maxMD) = false ->
     forall fuel, pressureData whpField fluidList maxMD maxTVD getTVD (S fuel) = Some []).
Proof.
  split.
  - intros [Hz|Hinf] fuel; unfold pressureData.
    + apply stuck_loop; destruct (zero_cases _ Hz) as [->| ->]; reflexivity.
    + subst maxMD. destruct fuel as [|fuel]; [reflexivity|].
      cbn [profileFrom]. change (0 <=? infinity) with true. cbv iota.
      change (0 + depthStep infinity) with infinity.
      rewrite stuck_loop; reflexivity.
  - intros H fuel. unfold pressureData. cbn [profileFrom]. rewrite H. reflexivity.
Qed.

End Loop.

Lemma maxDepth_at_surface (survey : list Survey.SurveyStation) :
  Forall (fun p => Survey.md p = 0) survey -> maxDepth survey = 0.
Proof.
  intros H. unfold maxDepth, Math_max.
  assert (G : forall l, Forall (fun x => x = 0) l -> Math_max_from 0 (l ++ [0]) = 0).
  { intros l Hl. induction Hl as [|x l -> _ IH]; [reflexivity|].
    cbn [app Math_max_from]. change (isNaN 0) with false. cbv iota.
    change ((0 =? 0) && (0 =? 0) && negb (get_sign 0)) with true. cbv iota. exact IH. }
  destruct survey as [|p survey]; [reflexivity|].
  inversion H as [|? ? Hp Hs]; subst. cbn [map app Math_max_from]. rewrite Hp.
  change (isNaN 0) with false. cbv iota.
  change ((0 =? 0) && (neg_infinity =? 0) && negb (get_sign 0)) with false. cbv iota.
  change (neg_infinity <? 0) with true. cbv iota.
  apply G. apply Forall_map. exact Hs.
Qed.

(** For a well whose survey is empty, or has all its stations at MD 0,
    [maxDepth] is 0 and the loop of the pressure profile does not end. *)
Theorem surface_only_survey_hangs_profile (survey : list Survey.SurveyStation)
  (whpField : Field) (fluidList : list FluidLayer) (maxTVD : float)
  (getTVD : float -> float)
  (Hsurface : Forall (fun p => Survey.md p = 0) survey) :
  maxDepth survey = 0 /\
  forall fuel,
    pressureData whpField fluidList (maxDepth survey) maxTVD getTVD fuel = None.
Proof.
  rewrite (maxDepth_at_surface survey Hsurface). split; [reflexivity|].
  intros fuel. unfold pressureData. apply stuck_loop; reflexivity.
Qed.

Lemma surface_only_survey_hangs_profile_witness :
  Forall (fun p => Survey.md p = 0) (Survey.parseSurveyData "" Survey.wizardConfig) /\
  forall fuel,
    pressureData (Num 0) [water]
      (maxDepth (Survey.parseSurveyData "" Survey.wizardConfig)) 0 (fun m => m) fuel = None.
Proof.
  assert (H : Forall (fun p => Survey.md p = 0) (Survey.parseSurveyData "" Survey.wizardConfig))
    by constructor.
  split; [exact H|].
  exact (proj2 (surface_only_survey_hangs_profile _ (Num 0) [water] 0 (fun m => m) H)).
Defined.

(** *** The interface calculator *)

Record CalcInputs := mkCalc {
  dhgp : Field;
  gaugeDepth : Field;
  fluidTop : string;
  fluidBot : string
}.

(** [parseFloat(v)] of a form field; a number is printed and read back, which
    gives the number itself, [-0] as [0]. *)
Definition parseFloatField (v : Field) : float :=
  match v with
  | Num x => if x =? 0 then 0 else x
  | Txt s => parseFloat (chars s)
  end.

(** [f => f.type === t] *)
Definition isType (t : string) (f : FluidLayer) : bool := String.eqb (type f) t.

(** [list.findIndex(test)]; [None] is [-1]. *)
Fixpoint findIndex {A : Type} (test : A -> bool) (l : list A) : option nat :=
  match l with
  | [] => None
  | a :: l' => if test a then Some 0%nat else option_map S (findIndex test l')
  end.

(** [l[i] = g(l[i])] for an index inside the array. *)
Fixpoint updateNth {A : Type} (i : nat) (g : A -> A) (l : list A) : list A :=
  match l, i with
  | [], _ => []
  | a :: l', O => g a :: l'
  | a :: l', S i' => a :: updateNth i' g l'
  end.

Definition setPercent (v : float) (f : FluidLayer) : FluidLayer :=
  mkLayer (type f) (sg f) v.

Definition g_factor : float := 0.0981.

(** [D_int] *)
Definition interfaceDepth (P_g P_whp D_g rho1 rho2 : float) : float :=
  (P_g - P_whp - (rho2 * g_factor * D_g)) / (g_factor * (rho1 - rho2)).

(** What a click on the button leads to: one of the two alerts, the error
    message, the new list of fluids, or the [TypeError] of a write through
    the index [-1]. *)
Inductive Outcome :=
| SelectTwoFluids
| DensitiesMustDiffer
| IllogicalDepth (D_int : float)
| Interface (D_int : float) (newList : list FluidLayer)
| Throws.

Definition calculateInterface (whp : Field) (fluidList : list FluidLayer) (maxTVD : float)
  (calcInputs : CalcInputs) : Outcome :=
  match find (isType (fluidTop calcInputs)) fluidList,
        find (isType (fluidBot calcInputs)) fluidList with
  | Some f1, Some f2 =>
      let rho1 := sg f1 in
      let rho2 := sg f2 in
      let P_g := parseFloatField (dhgp calcInputs) in
      let P_whp := parseFloatOrZero whp in
      let D_g := parseFloatField (gaugeDepth calcInputs) in
      if rho1 =? rho2 then DensitiesMustDiffer
      else
        let D_int := interfaceDepth P_g P_whp D_g rho1 rho2 in
        if (D_int <? 0) || (D_g <? D_int) then IllogicalDepth D_int
        else
          let pctTop := (D_int / maxTVD) * 100 in
          match findIndex (isType (fluidTop calcInputs)) fluidList,
                findIndex (isType (fluidBot calcInputs)) fluidList with
          | Some idx1, Some idx2 =>
              Interface D_int
                (updateNth idx2 (setPercent (toFixedNum 2 (100 - pctTop)))
                   (updateNth idx1 (setPercent (toFixedNum 2 pctTop))
                      (map (setPercent 0) fluidList)))
          | _, _ => Throws
          end
  | _, _ => SelectTwoFluids
  end.

(** [totalPercent] and [isInvalid] *)
Definition totalPercent (fluidList : list FluidLayer) : float :=
  fold_left (fun sum f => sum + orElse (percent f) 0) fluidList 0.

Definition isInvalid (fluidList : list FluidLayer) : bool :=
  0.5 <? Math_abs (totalPercent fluidList - 100).

(** *** NaN in arithmetic *)

Lemma nan_sub_l (a b : float) : isNaN a = true -> isNaN (a - b) = true.
Proof.
  rewrite !isNaN_spec, sub_spec. intros ->. reflexivity.
Qed.

Lemma nan_sub_r (a b : float) : isNaN b = true -> isNaN (a - b) = true.
Proof.
  rewrite !isNaN_spec, sub_spec. intros ->.
  destruct (Prim2SF a) as [[]|[]| |[] m e]; reflexivity.
Qed.

Lemma nan_mul_r (a b : float) : isNaN b = true -> isNaN (a * b) = true.
Proof.
  rewrite !isNaN_spec, mul_spec. intros ->.
  destruct (Prim2SF a) as [[]|[]| |[] m e]; reflexivity.
Qed.

Lemma nan_mul_l (a b : float) : isNaN a = true -> isNaN (a * b) = true.
Proof.
  rewrite !isNaN_spec, mul_spec. intros ->. reflexivity.
Qed.

Lemma nan_div_l (a b : float) : isNaN a = true -> isNaN (a / b) = true.
Proof.
  rewrite !isNaN_spec, div_spec. intros ->. reflexivity.
Qed.

Lemma nan_toFixedNum (d : nat) (x : float) : isNaN x = true -> toFixedNum d x = nan.
Proof.
  rewrite isNaN_spec. intros H. unfold toFixedNum. rewrite H. reflexivity.
Qed.

Lemma nan_not_lt (a b : float) :
  isNaN a = true \/ isNaN b = true -> (a <? b) = false.
Proof.
  intros H. destruct (a <? b) eqn:E; [|reflexivity].
  apply ltb_notNaN in E. destruct E as [Ea Eb]. destruct H as [H|H]; congruence.
Qed.

(** *** The lookups *)

Lemma find_findIndex {A : Type} (test : A -> bool) (l : list A) (a : A) :
  find test l = Some a ->
  exists i, findIndex test l = Some i /\ nth_error l i = Some a /\ test a = true.
Proof.
  induction l as [|x l IH]; [discriminate|]. cbn [find findIndex].
  destruct (test x) eqn:E.
  - intros H. inversion H; subst. exists 0%nat. auto.
  - intros H. destruct (IH H) as [i [Hi [Hn Ht]]]. exists (S i). rewrite Hi. auto.
Qed.

Lemma updateNth_nth {A : Type} (i : nat) (g : A -> A) (l : list A) (j : nat) :
  nth_error (updateNth i g l) j =
    if Nat.eqb i j then option_map g (nth_error l j) else nth_error l j.
Proof.
  revert i j. induction l as [|a l IH]; intros i j.
  - destruct i, j; cbn; try reflexivity. destruct (Nat.eqb i j); reflexivity.
  - destruct i as [|i], j as [|j]; cbn; try reflexivity. apply IH.
Qed.

Lemma updateNth_length {A : Type} (i : nat) (g : A -> A) (l : list A) :
  List.length (updateNth i g l) = List.length l.
Proof. revert i. induction l as [|a l IH]; intros [|i]; cbn; auto. Qed.

(** The list written by a successful calculation. *)
Definition rewritten (fluidList : list FluidLayer) (idx1 idx2 : nat) (top bottom : float)
  : list FluidLayer :=
  updateNth idx2 (setPercent bottom) (updateNth idx1 (setPercent top)
    (map (setPercent 0) fluidList)).

Lemma rewritten_nth (fluidList : list FluidLayer) (idx1 idx2 : nat) (top bottom : float)
  (j : nat) :
  nth_error (rewritten fluidList idx1 idx2 top bottom) j =
    option_map (setPercent (if Nat.eqb idx2 j then bottom
                            else if Nat.eqb idx1 j then top else 0))
      (nth_error fluidList j).
Proof.
  unfold rewritten. rewrite !updateNth_nth, nth_error_map.
  destruct (Nat.eqb idx2 j), (Nat.eqb idx1 j), (nth_error fluidList j); reflexivity.
Qed.

(** The calculator never writes through a missing index; when it reports
    an interface, the new list has the layers of the old one with their types
    and densities, the percentage of the top fluid is [D_int / maxTVD * 100]
    rounded to 2 decimals at the first layer of that type, that of the bottom
    fluid is the rest to 100 at the first layer of its type, and every other
    layer is set to 0. *)
Theorem interface_rewrites_the_percentages (whp : Field) (fluidList : list FluidLayer)
  (maxTVD : float) (calcInputs : CalcInputs) :
  match calculateInterface whp fluidList maxTVD calcInputs with
  | Throws => False
  | Interface D_int newList =>
      exists idx1 idx2,
        findIndex (isType (fluidTop calcInputs)) fluidList = Some idx1 /\
        findIndex (isType (fluidBot calcInputs)) fluidList = Some idx2 /\
        (D_int <? 0) = false /\ (parseFloatField (gaugeDepth calcInputs) <? D_int) = false /\
        map type newList = map type fluidList /\ map sg newList = map sg fluidList /\
        forall j f, nth_error newList j = Some f ->
          percent f =
            if Nat.eqb idx2 j then toFixedNum 2 (100 - D_int / maxTVD * 100)
            else if Nat.eqb idx1 j then toFixedNum 2 (D_int / maxTVD * 100)
            else 0
  | IllogicalDepth D_int =>
      (D_int <? 0) = true \/ (parseFloatField (gaugeDepth calcInputs) <? D_int) = true
  | DensitiesMustDiffer | SelectTwoFluids => True
  end.
Proof.
  unfold calculateInterface.
  destruct (find (isType (fluidTop calcInputs)) fluidList) as [f1|] eqn:E1; [|exact I].
  destruct (find (isType (fluidBot calcInputs)) fluidList) as [f2|] eqn:E2; [|exact I].
  destruct (find_findIndex _ _ _ E1) as [idx1 [Hi1 _]].
  destruct (find_findIndex _ _ _ E2) as [idx2 [Hi2 _]].
  cbv zeta. destruct (sg f1 =? sg f2); [exact I|].
  set (D_int := interfaceDepth _ _ _ _ _).
  destruct (D_int <? 0) eqn:Eneg; cbn [orb]; [left; exact Eneg|].
  destruct (parseFloatField (gaugeDepth calcInputs) <? D_int) eqn:Edeep;
    [right; exact Edeep|].
  rewrite Hi1, Hi2.
  exists idx1, idx2. repeat split; auto.
  - apply nth_error_ext. intros j.
    fold (rewritten fluidList idx1 idx2 (toFixedNum 2 (D_int / maxTVD * 100))
            (toFixedNum 2 (100 - D_int / maxTVD * 100))).
    rewrite !nth_error_map, rewritten_nth. destruct (nth_error fluidList j); reflexivity.
  - apply nth_error_ext. intros j.
    fold (rewritten fluidList idx1 idx2 (toFixedNum 2 (D_int / maxTVD * 100))
            (toFixedNum 2 (100 - D_int / maxTVD * 100))).
    rewrite !nth_error_map, rewritten_nth. destruct (nth_error fluidList j); reflexivity.
  - intros j f.
    fold (rewritten fluidList idx1 idx2 (toFixedNum 2 (D_int / maxTVD * 100))
            (toFixedNum 2 (100 - D_int / maxTVD * 100))).
    rewrite rewritten_nth. destruct (nth_error fluidList j); [|discriminate].
    cbn [option_map]. intros H. inversion H. reflexivity.
Qed.

Lemma totalPercent_zero (l : list FluidLayer) :
  Forall (fun f => percent f = 0 \/ isNaN (percent f) = true) l -> totalPercent l = 0.
Proof.
  unfold totalPercent. intros H. induction H as [|f l Hf _ IH]; [reflexivity|].
  cbn [fold_left].
  replace (0 + orElse (percent f) 0) with 0; [exact IH|].
  unfold orElse, truthy. destruct Hf as [-> | ->]; reflexivity.
Qed.

(** When the gauge pressure or the gauge depth does not parse to a number
    (an empty field, say), the calculator reports no error: it announces an
    interface at depth NaN and sets the percentages of the two fluids to NaN
    and all others to 0.  The total then counts NaN as 0, so that the
    configuration is flagged as invalid. *)
Theorem unparseable_gauge_gives_nan_percentages (whp : Field)
  (fluidList : list FluidLayer) (maxTVD : float) (calcInputs : CalcInputs)
  (f1 f2 : FluidLayer)
  (Htop : find (isType (fluidTop calcInputs)) fluidList = Some f1)
  (Hbot : find (isType (fluidBot calcInputs)) fluidList = Some f2)
  (Hrho : (sg f1 =? sg f2) = false)
  (Hnan : isNaN (parseFloatField (dhgp calcInputs)) = true \/
          isNaN (parseFloatField (gaugeDepth calcInputs)) = true) :
  exists D_int newList,
    calculateInterface whp fluidList maxTVD calcInputs = Interface D_int newList /\
    isNaN D_int = true /\
    Forall (fun f => percent f = 0 \/ isNaN (percent f) = true) newList /\
    Exists (fun f => isNaN (percent f) = true) newList /\
    totalPercent newList = 0 /\ isInvalid newList = true.
Proof.
  destruct (find_findIndex _ _ _ Htop) as [idx1 [Hi1 [Hn1 _]]].
  destruct (find_findIndex _ _ _ Hbot) as [idx2 [Hi2 [Hn2 _]]].
  set (D_int := interfaceDepth (parseFloatField (dhgp calcInputs)) (parseFloatOrZero whp)
                  (parseFloatField (gaugeDepth calcInputs)) (sg f1) (sg f2)).
  assert (HD : isNaN D_int = true).
  { unfold D_int, interfaceDepth. apply nan_div_l. destruct Hnan as [H|H].
    - apply nan_sub_l, nan_sub_l, H.
    - apply nan_sub_r, nan_mul_r, H. }
  assert (Hpct : isNaN (D_int / maxTVD * 100) = true) by (apply nan_mul_l, nan_div_l, HD).
  assert (Hrest : isNaN (100 - D_int / maxTVD * 100) = true) by (apply nan_sub_r, Hpct).
  exists D_int, (rewritten fluidList idx1 idx2 nan nan).
  assert (Hall : Forall (fun f => percent f = 0 \/ isNaN (percent f) = true)
                   (rewritten fluidList idx1 idx2 nan nan)).
  { apply Forall_forall. intros f Hf. apply In_nth_error in Hf. destruct Hf as [j Hj].
    rewrite rewritten_nth in Hj. destruct (nth_error fluidList j); [|discriminate].
    cbn [option_map] in Hj. inversion Hj. cbn [percent setPercent].
    destruct (Nat.eqb idx2 j); [right; reflexivity|].
    destruct (Nat.eqb idx1 j); [right; reflexivity | left; reflexivity]. }
  split.
  - unfold calculateInterface. rewrite Htop, Hbot. cbv zeta. rewrite Hrho.
    fold D_int. rewrite (nan_not_lt D_int 0) by (left; exact HD).
    rewrite (nan_not_lt _ D_int) by (right; exact HD). cbn [orb].
    rewrite Hi1, Hi2, (nan_toFixedNum 2 _ Hpct), (nan_toFixedNum 2 _ Hrest). reflexivity.
  - split; [exact HD|]. split; [exact Hall|]. split.
    + apply Exists_exists. exists (setPercent nan f2). split; [|reflexivity].
      apply (nth_error_In _ idx2). rewrite rewritten_nth, Hn2, Nat.eqb_refl. reflexivity.
    + split; [apply totalPercent_zero, Hall|].
      unfold isInvalid. rewrite (totalPercent_zero _ Hall). reflexivity.
Qed.

Definition threeFluids : list FluidLayer :=
  [mkLayer "Gass" 0.2 30; mkLayer "Olje" 0.8 40; mkLayer "Vann" 1.0 30].

(** The theorem for oil over water, with the gauge pressure left empty. *)
Lemma unparseable_gauge_gives_nan_percentages_witness :
  isNaN (parseFloatField (Txt "")) = true /\
  exists D_int newList,
    calculateInterface (Num 10) threeFluids 3000 (mkCalc (Txt "") (Txt "2000") "Olje" "Vann")
      = Interface D_int newList /\
    isNaN D_int = true /\ isInvalid newList = true.
Proof.
  split; [reflexivity|].
  destruct (unparseable_gauge_gives_nan_percentages (Num 10) threeFluids 3000
              (mkCalc (Txt "") (Txt "2000") "Olje" "Vann")
              (mkLayer "Olje" 0.8 40) (mkLayer "Vann" 1.0 30)
              eq_refl eq_refl eq_refl (or_introl eq_refl))
    as [D_int [newList [E [HD [_ [_ [_ Hinv]]]]]]].
  exists D_int, newList. auto.
Defined.

End Fluids.

(** ** Saving the temperature table ([StepTemperature], App.jsx lines 4123,
    4173-4195) *)

Module Temperature.

Import Js FloatOrder Text KeySort.
Local Open Scope float_scope.

(** A row of the table while it is edited: a cell holds the text typed into
    it, or a number. *)
Record TempRow := mkRow {
  row_md : Pressure.Field;
  row_tvd : Pressure.Field;
  row_temp : Pressure.Field
}.

(** A row as it is saved. *)
Record SavedRow := mkSaved {
  md : float;
  tvd : float;
  temp : float
}.

(** [parseFloat(String(v).replace(',', '.')) || 0]; the text of a number holds
    no comma and reads back as the number, [-0] as [0]. *)
Definition numberOf (v : Pressure.Field) : float :=
  match v with
  | Pressure.Num x => orElse x 0
  | Pressure.Txt s => orElse (parseFloat (replaceFirst "," "." (chars s))) 0
  end.

(** The callback of the [map] in the two save buttons. *)
Definition toSaved (row : TempRow) : SavedRow :=
  mkSaved (numberOf (row_md row)) (numberOf (row_tvd row)) (numberOf (row_temp row)).

(** [sortedData] *)
Definition sortedData (tempData : list TempRow) : list SavedRow :=
  Array_sort (fun a b => md a - md b) (map toSaved tempData).

(** [hasErrors], which disables the two buttons. *)
Definition hasErrors (tempData : list TempRow) (maxDepth : float) : bool :=
  existsb (fun row => maxDepth <? numberOf (row_md row)) tempData.

Lemma orElse_zero_numeric (a : float) : isNaN (orElse a 0) = false.
Proof.
  unfold orElse, truthy. destruct (isNaN a) eqn:E; [reflexivity|].
  cbn [orb]. destruct (a =? 0); [reflexivity | exact E].
Qed.

Lemma numberOf_numeric (v : Pressure.Field) : isNaN (numberOf v) = false.
Proof. destruct v; apply orElse_zero_numeric. Qed.

Lemma toSaved_numericKeys (tempData : list TempRow) :
  numericKeys md (map toSaved tempData).
Proof.
  apply Forall_map, Forall_forall. intros row _. apply numberOf_numeric.
Qed.

(** The table that is saved holds numbers only (a cell that does not read as a
    number counts as 0), in ascending order of MD, rows of equal MD in the
    order of the table; nothing is added or dropped.  When the buttons are
    enabled, no saved MD exceeds [maxDepth]. *)
Theorem saved_temperature_table (tempData : list TempRow) (maxDepth : float) :
  Forall (fun r => isNaN (md r) = false /\ isNaN (tvd r) = false /\ isNaN (temp r) = false)
    (sortedData tempData) /\
  keySorted md (sortedData tempData) /\
  Permutation (sortedData tempData) (map toSaved tempData) /\
  (forall k, filter (keyIs md k) (sortedData tempData) =
             filter (keyIs md k) (map toSaved tempData)) /\
  (hasErrors tempData maxDepth = false ->
   Forall (fun r => (maxDepth <? md r) = false) (sortedData tempData)).
Proof.
  assert (P : Permutation (sortedData tempData) (map toSaved tempData))
    by apply SortFacts.Array_sort_perm.
  split; [|split; [|split; [exact P|split]]].
  - rewrite P. apply Forall_map, Forall_forall. intros row _.
    cbn [toSaved md tvd temp]. repeat split; apply numberOf_numeric.
  - apply (Array_sort_keySorted md), toSaved_numericKeys.
  - intros k. apply (Array_sort_stable md).
  - intros H. rewrite P. apply Forall_map, Forall_forall. intros row Hrow.
    cbn [toSaved md]. unfold hasErrors in H.
    destruct (maxDepth <? numberOf (row_md row)) eqn:E; [|reflexivity].
    assert (Hex : existsb (fun row => maxDepth <? numberOf (row_md row)) tempData = true)
      by (apply existsb_exists; exists row; auto).
    congruence.
Qed.

End Temperature.

(** ** The tool string ([StepBHA], App.jsx lines 1275 and 1277) *)

Module ToolString.

Section Tools.
Context {Tool : Type}.

(** [tools[i]]: a read outside the array gives [undefined], here [None]. *)
Definition get (tools : list (option Tool)) (i : nat) : option Tool :=
  match nth_error tools i with
  | Some t => t
  | None => None
  end.

(** [tools[i] = v]: a write outside the array extends it, and the slots in
    between read as [undefined]. *)
Fixpoint set (tools : list (option Tool)) (i : nat) (v : option Tool)
  : list (option Tool) :=
  match i, tools with
  | O, [] => [v]
  | O, _ :: rest => v :: rest
  | S i', [] => None :: set [] i' v
  | S i', t :: rest => t :: set rest i' v
  end.

(** The [direction] of [moveTool]: the buttons pass [-1] and [1]. *)
Inductive Direction := Up | Down.

(** [index + direction], past the first test of [moveTool]. *)
Definition neighbour (index : nat) (direction : Direction) : nat :=
  match direction with
  | Up => index - 1
  | Down => index + 1
  end.

(** [moveTool(index, direction)]: the new [data.tools], which is the old one
    when the function returns at once. *)
Definition moveTool (tools : list (option Tool)) (index : nat) (direction : Direction)
  : list (option Tool) :=
  if match direction with
     | Up => Nat.eqb index 0
     | Down => Nat.eqb (S index) (List.length tools)
     end
  then tools
  else
    let temp := get tools index in
    let tools := set tools index (get tools (neighbour index direction)) in
    set tools (neighbour index direction) temp.

(** [removeTool(index)]: [tools.splice(index, 1)] *)
Definition removeTool (tools : list (option Tool)) (index : nat) : list (option Tool) :=
  firstn index tools ++ skipn (S index) tools.

Lemma get_at (pre post : list (option Tool)) (a : option Tool) :
  get (pre ++ a :: post) (List.length pre) = a.
Proof. unfold get. induction pre as [|t pre IH]; [reflexivity | exact IH]. Qed.

Lemma get_next (pre post : list (option Tool)) (a b : option Tool) :
  get (pre ++ a :: b :: post) (S (List.length pre)) = b.
Proof. unfold get. induction pre as [|t pre IH]; [reflexivity | exact IH]. Qed.

Lemma set_at (pre post : list (option Tool)) (a v : option Tool) :
  set (pre ++ a :: post) (List.length pre) v = pre ++ v :: post.
Proof.
  induction pre as [|t pre IH]; [reflexivity|].
  cbn [app List.length set]. rewrite IH. reflexivity.
Qed.

Lemma set_next (pre post : list (option Tool)) (a b v : option Tool) :
  set (pre ++ a :: b :: post) (S (List.length pre)) v = pre ++ a :: v :: post.
Proof.
  induction pre as [|t pre IH]; [reflexivity|].
  cbn [app List.length set] in *. rewrite IH. reflexivity.
Qed.

(** A tool and the one below it change places, whichever of the two buttons
    is used. *)
Lemma moveTool_pair (pre post : list (option Tool)) (a b : option Tool) :
  moveTool (pre ++ a :: b :: post) (List.length pre) Down = pre ++ b :: a :: post /\
  moveTool (pre ++ a :: b :: post) (S (List.length pre)) Up = pre ++ b :: a :: post.
Proof.
  unfold moveTool, neighbour. split.
  - replace (Nat.eqb (S (List.length pre)) (List.length (pre ++ a :: b :: post))) with false
      by (symmetry; apply Nat.eqb_neq; rewrite length_app; cbn [List.length]; lia).
    rewrite Nat.add_1_r, get_at, get_next, set_at, set_next. reflexivity.
  - cbn [Nat.eqb].
    replace (S (List.length pre) - 1)%nat with (List.length pre) by lia.
    rewrite get_at, get_next, set_next, set_at. reflexivity.
Qed.

Lemma split_pair (tools : list (option Tool)) (index : nat) :
  (S index < List.length tools)%nat ->
  exists pre a b post, tools = pre ++ a :: b :: post /\ List.length pre = index.
Proof.
  intros H. exists (firstn index tools).
  destruct (skipn index tools) as [|a [|b post]] eqn:E.
  - apply (f_equal (@List.length _)) in E. rewrite length_skipn in E. cbn in E. lia.
  - apply (f_equal (@List.length _)) in E. rewrite length_skipn in E. cbn in E. lia.
  - exists a, b, post. split; [|rewrite length_firstn; lia].
    rewrite <- E. symmetry. apply firstn_skipn.
Qed.

Lemma removeTool_app (pre post : list (option Tool)) (a : option Tool) :
  removeTool (pre ++ a :: post) (List.length pre) = pre ++ post.
Proof.
  unfold removeTool.
  rewrite firstn_app, Nat.sub_diag, firstn_all, app_nil_r.
  replace (S (List.length pre)) with (List.length pre + 1)%nat by lia.
  rewrite skipn_app, skipn_all2 by lia.
  replace (List.length pre + 1 - List.length pre)%nat with 1%nat by lia. reflexivity.
Qed.

(** A tool that is not the last one moves down by changing places with the
    one below it: no tool is lost or doubled, the button for moving up on the
    row below does the same, and pressing that button afterwards restores the
    tool string.  Moving a tool down and removing it there is removing it.
    The first tool does not move up and the last one does not move down. *)
Theorem move_tool_swaps_neighbours (tools : list (option Tool)) (index : nat)
  (Hbelow : (S index < List.length tools)%nat) :
  Permutation (moveTool tools index Down) tools /\
  get (moveTool tools index Down) index = get tools (S index) /\
  get (moveTool tools index Down) (S index) = get tools index /\
  (forall j, j <> index -> j <> S index -> get (moveTool tools index Down) j = get tools j) /\
  moveTool tools (S index) Up = moveTool tools index Down /\
  moveTool (moveTool tools index Down) (S index) Up = tools /\
  removeTool (moveTool tools index Down) (S index) = removeTool tools index /\
  moveTool tools 0 Up = tools /\
  moveTool tools (List.length tools - 1) Down = tools.
Proof.
  destruct (split_pair tools index Hbelow) as [pre [a [b [post [-> <-]]]]].
  destruct (moveTool_pair pre post a b) as [Hdown Hup].
  rewrite Hup, Hdown.
  destruct (moveTool_pair pre post b a) as [_ Hback].
  split; [apply Permutation_app_head, perm_swap|].
  split; [rewrite get_at, get_next; reflexivity|].
  split; [rewrite get_at, get_next; reflexivity|].
  split.
  { intros j Hj Hj'. unfold get.
    destruct (Nat.lt_ge_cases j (List.length pre)) as [Hlt|Hge].
    - rewrite !nth_error_app1 by exact Hlt. reflexivity.
    - rewrite !nth_error_app2 by exact Hge.
      destruct (j - List.length pre)%nat as [|[|k]] eqn:E; try lia. reflexivity. }
  split; [reflexivity|]. split; [exact Hback|]. split.
  { replace (pre ++ b :: a :: post) with ((pre ++ [b]) ++ a :: post)
      by (rewrite <- app_assoc; reflexivity).
    replace (S (List.length pre)) with (List.length (pre ++ [b]))
      by (rewrite length_app; cbn; lia).
    rewrite !removeTool_app, <- app_assoc. reflexivity. }
  split; [reflexivity|].
  unfold moveTool.
  replace (Nat.eqb (S (List.length (pre ++ a :: b :: post) - 1))
             (List.length (pre ++ a :: b :: post))) with true; [reflexivity|].
  symmetry. apply Nat.eqb_eq. rewrite length_app. cbn [List.length]. lia.
Qed.

End Tools.

(** The theorem for the middle tool of three. *)
Lemma move_tool_swaps_neighbours_witness :
  (2 < List.length [Some 1%nat; Some 2%nat; Some 3%nat])%nat /\
  moveTool [Some 1%nat; Some 2%nat; Some 3%nat] 1 Down = [Some 1%nat; Some 3%nat; Some 2%nat] /\
  Permutation (moveTool [Some 1%nat; Some 2%nat; Some 3%nat] 1 Down)
    [Some 1%nat; Some 2%nat; Some 3%nat].
Proof.
  assert (H : (2 < List.length [Some 1%nat; Some 2%nat; Some 3%nat])%nat) by (cbn; lia).
  split; [exact H|]. split; [reflexivity|].
  exact (proj1 (move_tool_swaps_neighbours [Some 1%nat; Some 2%nat; Some 3%nat] 1 H)).
Defined.

End ToolString.

(** ** [calculateTrajectory] (App.jsx, lines 54-94), in exact arithmetic

    [calculateTrajectory] goes through [Math.cos], [Math.sin], [Math.tan] and
    [Math.acos], which an implementation only approximates, and the claims
    about it compare its results with exact quantities.  The function is read
    here over the real numbers: the arithmetic is the source's, without
    rounding. *)

From Stdlib Require Import Reals Lra Psatz.

Module Trajectory.

Local Open Scope R_scope.

Record SurveyPoint := mkSurvey {
  md : R;
  inc : R;
  azi : R
}.

(** [{ x, y, z, md, tvd }] *)
Record TrajectoryPoint := mkTrajectory {
  x : R;
  y : R;
  z : R;
  t_md : R;
  tvd : R
}.

Definition degToRad (deg : R) : R := deg * (PI / 180).

(** [dl], the dogleg angle between two stations. *)
Definition dogleg (p1 p2 : SurveyPoint) : R :=
  let I1 := degToRad (inc p1) in
  let I2 := degToRad (inc p2) in
  let A1 := degToRad (azi p1) in
  let A2 := degToRad (azi p2) in
  acos (Rmax (-1) (Rmin 1 (cos (I2 - I1) - sin I1 * sin I2 * (1 - cos (A2 - A1))))).

(** [RF], the ratio factor. *)
Definition ratioFactor (dl : R) : R :=
  if Rlt_dec (1 / 10000) dl then (2 / dl) * tan (dl / 2) else 1.

Definition dN (p1 p2 : SurveyPoint) : R :=
  let dm := md p2 - md p1 in
  let I1 := degToRad (inc p1) in
  let I2 := degToRad (inc p2) in
  let A1 := degToRad (azi p1) in
  let A2 := degToRad (azi p2) in
  (dm / 2) * (sin I1 * cos A1 + sin I2 * cos A2) * ratioFactor (dogleg p1 p2).

Definition dE (p1 p2 : SurveyPoint) : R :=
  let dm := md p2 - md p1 in
  let I1 := degToRad (inc p1) in
  let I2 := degToRad (inc p2) in
  let A1 := degToRad (azi p1) in
  let A2 := degToRad (azi p2) in
  (dm / 2) * (sin I1 * sin A1 + sin I2 * sin A2) * ratioFactor (dogleg p1 p2).

Definition dTVD (p1 p2 : SurveyPoint) : R :=
  let dm := md p2 - md p1 in
  let I1 := degToRad (inc p1) in
  let I2 := degToRad (inc p2) in
  (dm / 2) * (cos I1 + cos I2) * ratioFactor (dogleg p1 p2).

(** The [for] loop from the station after [p1] on, with the running [N], [E]
    and [TVD]: the points it pushes. *)
Fixpoint trajectoryLoop (p1 : SurveyPoint) (rest : list SurveyPoint) (N E TVD : R)
  : list TrajectoryPoint :=
  match rest with
  | [] => []
  | p2 :: rest' =>
      if Rle_dec (md p2) (md p1) then trajectoryLoop p2 rest' N E TVD
      else
        let N' := N + dN p1 p2 in
        let E' := E + dE p1 p2 in
        let TVD' := TVD + dTVD p1 p2 in
        mkTrajectory E' (- TVD') (- N') (md p2) TVD'
          :: trajectoryLoop p2 rest' N' E' TVD'
  end.

(** [surveyPoints] is [None] when the argument is missing. *)
Definition calculateTrajectory (surveyPoints : option (list SurveyPoint))
  : list TrajectoryPoint :=
  match surveyPoints with
  | None | Some [] => []
  | Some (p0 :: rest) => mkTrajectory 0 0 0 0 0 :: trajectoryLoop p0 rest 0 0 0
  end.

(** *** Vertical stations *)










(** *** TVD along the trajectory *)









End Trajectory.

(** ** The geometry of [calculateTrajectory] *)

Module TrajectoryFacts.

Import Trajectory.
Local Open Scope R_scope.














Definition deviated : list SurveyPoint :=
  [mkSurvey 100 0 0; mkSurvey 600 30 45; mkSurvey 1500 90 120].


(** The loop pushes at most one point per station, and one per station
    exactly when each MD exceeds the one before. *)
Lemma loop_length (rest : list SurveyPoint) (p1 : SurveyPoint) (N E TVD : R) :
  (List.length (trajectoryLoop p1 rest N E TVD) <= List.length rest)%nat /\
  (List.length (trajectoryLoop p1 rest N E TVD) = List.length rest <->
   Sorted Rlt (map md (p1 :: rest))).
Proof.
  revert p1 N E TVD. induction rest as [|p2 rest IH]; intros p1 N E TVD.
  - cbn. split; [lia|]. split; [repeat constructor | reflexivity].
  - cbn [trajectoryLoop map List.length].
    destruct (Rle_dec (md p2) (md p1)) as [Hle|Hgt].
    + destruct (IH p2 N E TVD) as [Hlen _]. split; [lia|]. split; [lia|].
      intros Hs. apply Sorted_inv in Hs. destruct Hs as [_ Hhd].
      apply HdRel_inv in Hhd. lra.
    + cbn [List.length].
      destruct (IH p2 (N + dN p1 p2) (E + dE p1 p2) (TVD + dTVD p1 p2)) as [Hlen Hiff].
      split; [lia|]. split.
      * intros H. constructor; [apply Hiff; lia|]. constructor. lra.
      * intros Hs. apply Sorted_inv in Hs. destruct Hs as [Hs _].
        apply Hiff in Hs. cbn [map] in Hs. lia.
Qed.

Lemma loop_points (rest : list SurveyPoint) (p1 : SurveyPoint) (N E TVD : R) :
  Forall (fun t => y t = - tvd t /\ exists p, In p rest /\ t_md t = md p)
    (trajectoryLoop p1 rest N E TVD).
Proof.
  revert p1 N E TVD. induction rest as [|p2 rest IH]; intros p1 N E TVD; [constructor|].
  cbn [trajectoryLoop].
  assert (Hrest : forall p N E TVD,
            Forall (fun t => y t = - tvd t /\ exists q, In q (p2 :: rest) /\ t_md t = md q)
              (trajectoryLoop p rest N E TVD)).
  { intros p N' E' TVD'. eapply Forall_impl; [|apply IH].
    intros t [Hy [q [Hq Hmd]]]. split; [exact Hy|]. exists q. split; [right; exact Hq | exact Hmd]. }
  destruct (Rle_dec (md p2) (md p1)); [apply Hrest|].
  constructor; [|apply Hrest].
  cbn [y tvd t_md]. split; [reflexivity|]. exists p2. split; [left; reflexivity | reflexivity].
Qed.

(** The trajectory of a missing or empty survey is empty; otherwise it
    starts with the point (0, 0, 0) at MD 0 and TVD 0, which stands for the
    first station, and holds at most one further point per later station,
    each at the MD of a station and with [y = -tvd]; it has as many points as
    the survey has stations exactly when every MD exceeds the one before:
    a station that does not is left out. *)
Theorem trajectory_points_and_stations (p0 : SurveyPoint) (rest : list SurveyPoint) :
  calculateTrajectory None = [] /\ calculateTrajectory (Some []) = [] /\
  exists points,
    calculateTrajectory (Some (p0 :: rest)) = mkTrajectory 0 0 0 0 0 :: points /\
    (List.length points <= List.length rest)%nat /\
    Forall (fun t => y t = - tvd t /\ exists p, In p rest /\ t_md t = md p) points /\
    (List.length (calculateTrajectory (Some (p0 :: rest))) = List.length (p0 :: rest) <->
     Sorted Rlt (map md (p0 :: rest))).
Proof.
  split; [reflexivity|]. split; [reflexivity|].
  exists (trajectoryLoop p0 rest 0 0 0). split; [reflexivity|].
  destruct (loop_length rest p0 0 0 0) as [Hlen Hiff].
  split; [exact Hlen|]. split; [apply loop_points|].
  cbn [calculateTrajectory List.length]. rewrite <- Hiff. lia.
Qed.

End TrajectoryFacts.

(** ** The trajectory items of [exportToComtrac] (App.jsx, lines 116 and
    136-151) *)

Module ExportTrajectory.

Import Trajectory.
Local Open Scope R_scope.

(** [new Map(entries).get(k)]: the value of the last entry with key [k]. *)
Fixpoint Map_get (entries : list (R * TrajectoryPoint)) (k : R) : option TrajectoryPoint :=
  match entries with
  | [] => None
  | (k', v) :: rest =>
      match Map_get rest k with
      | Some v' => Some v'
      | None => if Req_dec_T k' k then Some v else None
      end
  end.

(** [traj.map(t => [t.md, t])] *)
Definition entriesOf (traj : list TrajectoryPoint) : list (R * TrajectoryPoint) :=
  map (fun t => (t_md t, t)) traj.

(** The numbers of a [WellTrajectoryItem], before [fmt] prints them. *)
Record Item := mkItem {
  MD : R;
  Incl : R;
  Az : R;
  TVD : R;
  North : R;
  East : R
}.

(** [trajMap.get(p.md) || { x: 0, y: 0, z: 0, tvd: 0 }] *)
Definition calcFor (traj : list TrajectoryPoint) (p : SurveyPoint) : TrajectoryPoint :=
  match Map_get (entriesOf traj) (md p) with
  | Some t => t
  | None => mkTrajectory 0 0 0 0 0
  end.

Definition itemOf (p : SurveyPoint) (calc : TrajectoryPoint) : Item :=
  mkItem (md p) (degToRad (inc p)) (degToRad (azi p)) (tvd calc) (- z calc) (x calc).

(** The items in the order of [well.survey.forEach]. *)
Definition trajectoryItems (survey : list SurveyPoint) : list Item :=
  let traj := calculateTrajectory (Some survey) in
  map (fun p => itemOf p (calcFor traj p)) survey.

Lemma loop_mds (rest : list SurveyPoint) (p1 : SurveyPoint) (N E TVD : R) :
  Sorted Rlt (map md (p1 :: rest)) ->
  map t_md (trajectoryLoop p1 rest N E TVD) = map md rest.
Proof.
  revert p1 N E TVD. induction rest as [|p2 rest IH]; intros p1 N E TVD Hs; [reflexivity|].
  cbn [map] in Hs. apply Sorted_inv in Hs. destruct Hs as [Hs Hhd]. apply HdRel_inv in Hhd.
  cbn [trajectoryLoop]. destruct (Rle_dec (md p2) (md p1)) as [Hle|_]; [lra|].
  cbn [map t_md]. rewrite IH by exact Hs. reflexivity.
Qed.

Lemma Map_get_absent (traj : list TrajectoryPoint) (k : R) :
  Forall (fun m => k < m) (map t_md traj) -> Map_get (entriesOf traj) k = None.
Proof.
  induction traj as [|t traj IH]; intros H; [reflexivity|].
  cbn [map] in H. inversion H as [|? ? Ht Hrest]; subst.
  cbn [entriesOf map Map_get]. fold (entriesOf traj). rewrite (IH Hrest).
  destruct (Req_dec_T (t_md t) k) as [E|_]; [lra | reflexivity].
Qed.

Lemma sorted_above (m : R) (l : list R) : Sorted Rlt (m :: l) -> Forall (fun k => m < k) l.
Proof.
  intros Hs. apply Sorted_StronglySorted in Hs.
  - apply StronglySorted_inv in Hs. exact (proj2 Hs).
  - intros a b c. apply Rlt_trans.
Qed.

(** In the map of the points the loop pushes, every later station finds its
    own point. *)
Lemma loop_lookup (rest : list SurveyPoint) (p1 : SurveyPoint) (N E TVD : R) :
  Sorted Rlt (map md (p1 :: rest)) ->
  map (fun p => Map_get (entriesOf (trajectoryLoop p1 rest N E TVD)) (md p)) rest =
  map Some (trajectoryLoop p1 rest N E TVD).
Proof.
  revert p1 N E TVD. induction rest as [|p2 rest IH]; intros p1 N E TVD Hs; [reflexivity|].
  pose proof Hs as Hs0.
  cbn [map] in Hs. apply Sorted_inv in Hs. destruct Hs as [Hs Hhd]. apply HdRel_inv in Hhd.
  cbn [trajectoryLoop]. destruct (Rle_dec (md p2) (md p1)) as [Hle|_]; [lra|].
  set (N' := N + dN p1 p2). set (E' := E + dE p1 p2). set (TVD' := TVD + dTVD p1 p2).
  set (pt := mkTrajectory E' (- TVD') (- N') (md p2) TVD').
  specialize (IH p2 N' E' TVD' Hs).
  cbn [map]. f_equal.
  - cbn [entriesOf map Map_get]. fold (entriesOf (trajectoryLoop p2 rest N' E' TVD')).
    rewrite Map_get_absent.
    + cbn [t_md pt]. destruct (Req_dec_T (md p2) (md p2)) as [_|Hne]; [reflexivity | congruence].
    + rewrite (loop_mds rest p2 N' E' TVD' Hs). apply sorted_above. exact Hs.
  - rewrite <- IH. apply map_ext_in. intros p Hp.
    cbn [entriesOf map Map_get]. fold (entriesOf (trajectoryLoop p2 rest N' E' TVD')).
    assert (Hsome : exists v, Map_get (entriesOf (trajectoryLoop p2 rest N' E' TVD')) (md p)
                              = Some v).
    { clear - IH Hp. revert IH. generalize (trajectoryLoop p2 rest N' E' TVD') at 2.
      generalize (entriesOf (trajectoryLoop p2 rest N' E' TVD')). intros entries.
      induction rest as [|q rest IHr]; intros l IH; [destruct Hp|].
      destruct l as [|v l]; [discriminate IH|]. cbn [map] in IH. inversion IH as [[Hq Hrest]].
      destruct Hp as [->|Hp]; [exists v; exact Hq | exact (IHr Hp l Hrest)]. }
    destruct Hsome as [v ->]. reflexivity.
Qed.

(** For stations of strictly increasing MD the export lists, station by
    station, the point that [calculateTrajectory] computed for it: its TVD,
    its northing and its easting; the first station stands at the origin. *)
Theorem export_lists_the_trajectory (survey : list SurveyPoint)
  (Hascending : Sorted Rlt (map md survey)) :
  trajectoryItems survey =
    map (fun '(p, t) => itemOf p t) (combine survey (calculateTrajectory (Some survey))) /\
  List.length (trajectoryItems survey) = List.length (calculateTrajectory (Some survey)) /\
  match trajectoryItems survey with
  | first :: _ => TVD first = 0 /\ North first = 0 /\ East first = 0
  | [] => survey = []
  end.
Proof.
  destruct survey as [|p0 rest]; [repeat split|].
  assert (Hfirst : calcFor (calculateTrajectory (Some (p0 :: rest))) p0 = mkTrajectory 0 0 0 0 0).
  { unfold calcFor. cbn [calculateTrajectory entriesOf map Map_get].
    fold (entriesOf (trajectoryLoop p0 rest 0 0 0)).
    rewrite Map_get_absent.
    - cbn [t_md]. destruct (Req_dec_T 0 (md p0)); reflexivity.
    - rewrite (loop_mds rest p0 0 0 0 Hascending). apply sorted_above. exact Hascending. }
  assert (Hrest : map (calcFor (calculateTrajectory (Some (p0 :: rest)))) rest =
                  trajectoryLoop p0 rest 0 0 0).
  { pose proof (loop_lookup rest p0 0 0 0 Hascending) as H.
    assert (G : forall (l : list SurveyPoint) (pts : list TrajectoryPoint),
              map (fun p => Map_get (entriesOf (trajectoryLoop p0 rest 0 0 0)) (md p)) l =
              map Some pts ->
              map (calcFor (calculateTrajectory (Some (p0 :: rest)))) l = pts).
    { induction l as [|q l IHl]; intros [|v pts] E; try discriminate E; [reflexivity|].
      cbn [map] in E. inversion E as [[Hq Hl]]. cbn [map]. rewrite (IHl pts Hl). f_equal.
      unfold calcFor. cbn [calculateTrajectory entriesOf map Map_get].
      fold (entriesOf (trajectoryLoop p0 rest 0 0 0)). rewrite Hq. reflexivity. }
    exact (G rest _ H). }
  assert (Hitems : trajectoryItems (p0 :: rest) =
            map (fun '(p, t) => itemOf p t)
              (combine (p0 :: rest) (calculateTrajectory (Some (p0 :: rest))))).
  { unfold trajectoryItems. cbv zeta.
    set (f := calcFor (calculateTrajectory (Some (p0 :: rest)))) in *. clearbody f.
    cbn [calculateTrajectory combine map]. rewrite Hfirst, <- Hrest. f_equal.
    clear. induction rest as [|q rest IH]; [reflexivity|].
    cbn [map combine]. rewrite <- IH. reflexivity. }
  split; [exact Hitems|]. split.
  - unfold trajectoryItems. cbv zeta. rewrite length_map.
    cbn [calculateTrajectory List.length]. rewrite <- Hrest, length_map. reflexivity.
  - unfold trajectoryItems. cbv zeta. cbn [map]. rewrite Hfirst.
    cbn [itemOf TVD North East tvd z x]. repeat split; lra.
Qed.

(** The theorem for a survey of three stations. *)
Lemma export_lists_the_trajectory_witness :
  Sorted Rlt (map md TrajectoryFacts.deviated) /\
  trajectoryItems TrajectoryFacts.deviated =
    map (fun '(p, t) => itemOf p t)
      (combine TrajectoryFacts.deviated (calculateTrajectory (Some TrajectoryFacts.deviated))).
Proof.
  assert (Hs : Sorted Rlt (map md TrajectoryFacts.deviated))
    by (repeat constructor; cbn; lra).
  split; [exact Hs|].
  exact (proj1 (export_lists_the_trajectory TrajectoryFacts.deviated Hs)).
Defined.

End ExportTrajectory.
